(** * x402-starter-kit: the payment signature normaliser and its fetch wrapper

    A shallow embedding of [src/lib/payment.ts]:

    - [normalizeSignatureV], the pure function that rewrites the trailing
      recovery identifier of a hex signature into the legacy form, and
    - [createNormalizedFetch], the wrapper around [fetch] that looks for a
      payment header, decodes it, normalises the signature it carries and
      writes the re-encoded header back before it delegates.

    Conventions of the embedding.

    - A JavaScript string is a [string]: a sequence of code units, here the
      code units below 256 (all that [atob] produces and [btoa] accepts).
    - A JavaScript [number] is [NaN] or an exact integer [Num z].  The
      arithmetic of the normaliser only meets integers when the chain id is
      one; the embedding is exact as long as they stay within the range in
      which a double represents every integer (magnitude at most 2^53), which
      bounds the recovery identifier to 13 hexadecimal digits and the chain
      id to 2^52.  Negative zero is identified with zero: the code compares
      it with [===] and adds 27, which do not tell them apart.
    - Diagnostic output ([console.log], [console.warn], [console.error]) is
      left out; it returns normally on every argument the types allow.
    - What the JavaScript runtime provides to the wrapper (base64, JSON, the
      class [Headers], [fetch]) is an interface, [Platform]; the theorems
      about the wrapper hold for every instance, and [RefPlatform] is an
      instance that runs.
    - An object that the wrapper mutates (the plain object of headers, an
      instance of [Headers]) is passed as a value and comes back as the value
      it has afterwards: [init_after] is the state of the caller's [init]
      once the wrapper is done, and it is this [init] that [fetch] sees. *)

From Stdlib Require Import ZArith String Ascii DecimalString Lia.
From stdpp Require Import base option strings list gmap.

Open Scope Z_scope.

(** ** JavaScript strings *)

Module JSString.

(** [s.slice(0, n)] for a non-negative [n]. *)
Fixpoint take (n : nat) (s : string) : string :=
  match n, s with
  | S n', String c r => String c (take n' r)
  | _, _ => EmptyString
  end.

(** [s.slice(n)] for a non-negative [n]. *)
Fixpoint drop (n : nat) (s : string) : string :=
  match n, s with
  | S n', String _ r => drop n' r
  | _, _ => s
  end.

(** [String.prototype.slice(start, end)] with non-negative indices; [None]
    for an omitted [end]. *)
Definition slice (s : string) (start : nat) (end_ : option nat) : string :=
  match end_ with
  | None => drop start s
  | Some e => take (e - start) (drop start s)
  end.

(** The first [n] code units of [filler] repeated for ever ([filler] is not
    empty where this is used). *)
Fixpoint cycle (n : nat) (filler rest : string) : string :=
  match n with
  | O => EmptyString
  | S n' =>
      match rest with
      | String c r => String c (cycle n' filler r)
      | EmptyString =>
          match filler with
          | String c r => String c (cycle n' filler r)
          | EmptyString => EmptyString
          end
      end
  end.

(** [String.prototype.padStart(targetLength, padString)]. *)
Definition padStart (s : string) (targetLength : nat) (padString : string) : string :=
  if (targetLength <=? String.length s)%nat then s
  else if bool_decide (padString = EmptyString) then s
  else cycle (targetLength - String.length s) padString padString +:+ s.

(** Code units that [parseInt] skips at the start of its argument: the
    white space and line terminator code units below 256. *)
Definition isWhiteSpace (c : ascii) : bool :=
  let n := N_of_ascii c in
  ((9 <=? n) && (n <=? 13) || (n =? 32) || (n =? 160))%N.

Fixpoint trimStart (s : string) : string :=
  match s with
  | String c r => if isWhiteSpace c then trimStart r else s
  | EmptyString => EmptyString
  end.

End JSString.

Import JSString.

(** ** JavaScript numbers *)

Inductive number : Type :=
| NaN
| Num (z : Z).

Module Number.

(** [x === k] against an integer literal. *)
Definition strictEq (x : number) (k : Z) : bool :=
  match x with
  | NaN => false
  | Num z => z =? k
  end.

(** [x >= k]. *)
Definition ge (x : number) (k : Z) : bool :=
  match x with
  | NaN => false
  | Num z => k <=? z
  end.

Definition add (x y : number) : number :=
  match x, y with
  | Num a, Num b => Num (a + b)
  | _, _ => NaN
  end.

Definition sub (x y : number) : number :=
  match x, y with
  | Num a, Num b => Num (a - b)
  | _, _ => NaN
  end.

Definition mul (x y : number) : number :=
  match x, y with
  | Num a, Num b => Num (a * b)
  | _, _ => NaN
  end.

(** [x % y]: the remainder takes the sign of the dividend, and a zero
    divisor gives [NaN]. *)
Definition rem (x y : number) : number :=
  match x, y with
  | Num a, Num b => if b =? 0 then NaN else Num (Z.rem a b)
  | _, _ => NaN
  end.

(** The value of a digit of [parseInt] and the digit of [toString]. *)
Definition digitValue (c : ascii) : option Z :=
  let n := Z.of_N (N_of_ascii c) in
  if (48 <=? n) && (n <=? 57) then Some (n - 48)
  else if (97 <=? n) && (n <=? 122) then Some (n - 87)
  else if (65 <=? n) && (n <=? 90) then Some (n - 55)
  else None.

Definition digitChar (d : Z) : ascii :=
  ascii_of_N (Z.to_N (if d <? 10 then d + 48 else d + 87)).

(** The longest prefix of [s] made of digits of radix [R], read as an
    integer; [acc] is [None] until a digit was seen. *)
Fixpoint digits (R : Z) (s : string) (acc : option Z) : option Z :=
  match s with
  | String c r =>
      match digitValue c with
      | Some d =>
          if d <? R then digits R r (Some (R * default 0 acc + d)) else acc
      | None => acc
      end
  | EmptyString => acc
  end.

(** [parseInt(string, radix)] for an integer [radix]. *)
Definition parseInt (inputString : string) (radix : Z) : number :=
  let S0 := trimStart inputString in
  let '(sign, S1) :=
    match S0 with
    | String "-" r => (-1, r)
    | String "+" r => (1, r)
    | _ => (1, S0)
    end in
  if bool_decide (radix ≠ 0) && ((radix <? 2) || (36 <? radix)) then NaN
  else
    let R := if radix =? 0 then 10 else radix in
    let stripPrefix := (radix =? 0) || (radix =? 16) in
    let '(R, S2) :=
      match stripPrefix, S1 with
      | true, String "0" (String "x" r) => (16, r)
      | true, String "0" (String "X" r) => (16, r)
      | _, _ => (R, S1)
      end in
    match digits R S2 None with
    | None => NaN
    | Some mathInt => Num (sign * mathInt)
    end.

(** The digits of a non-negative integer in base 16, most significant
    first, in front of [acc]. *)
Fixpoint toRadix16 (fuel : nat) (n : Z) (acc : string) : string :=
  match fuel with
  | O => acc
  | S fuel' =>
      let acc' := String (digitChar (n mod 16)) acc in
      if n / 16 =? 0 then acc' else toRadix16 fuel' (n / 16) acc'
  end.

(** [x.toString(16)]. *)
Definition toString16 (x : number) : string :=
  match x with
  | NaN => "NaN"
  | Num z =>
      if z <? 0
      then String "-" (toRadix16 (S (Z.to_nat (Z.log2 (- z)))) (- z) EmptyString)
      else toRadix16 (S (Z.to_nat (Z.log2 z))) z EmptyString
  end.

End Number.

Import Number.

(** ** The signature normaliser *)

(** The value the source binds to [normalizedV]. *)
Definition normalizedV (vValue chainId : number) : number :=
  if strictEq vValue 0 || strictEq vValue 1 then
    add vValue (Num 27)
  else if strictEq vValue 27 || strictEq vValue 28 then
    vValue
  else if ge vValue 35 then
    let yParity := rem (sub (sub vValue (Num 35)) (mul chainId (Num 2))) (Num 2) in
    add yParity (Num 27)
  else
    vValue.

(** The last line of the source function, for the two slices it takes. *)
Definition reassemble (head : string) (v : number) : string :=
  head +:+ padStart (toString16 v) 2 "0".

Definition normalizeSignatureV (signature : string) (chainId : number) : string :=
  let vHex := slice signature 130 None in
  let vValue := parseInt vHex 16 in
  reassemble (slice signature 0 (Some 130%nat)) (normalizedV vValue chainId).


(** ** Values of [JSON.parse] *)

(** [jnumber] is the type of the numbers of a JSON text; the wrapper never
    computes with them. An object keeps its members in order, each name
    once. *)
#[warnings="-register-all"]
Inductive JSON (jnumber : Type) : Type :=
| JNull
| JBool (b : bool)
| JNumber (n : jnumber)
| JString (s : string)
| JArray (elements : list (JSON jnumber))
| JObject (members : list (string * JSON jnumber)).

Arguments JNull {jnumber}.
Arguments JBool {jnumber} b.
Arguments JNumber {jnumber} n.
Arguments JString {jnumber} s.
Arguments JArray {jnumber} elements.
Arguments JObject {jnumber} members.

Module Members.
Section Members.
Context {V : Type}.

(** [o[k]] on the own properties of an object; [None] is [undefined]. *)
Fixpoint get (k : string) (ms : list (string * V)) : option V :=
  match ms with
  | [] => None
  | (k', v) :: r => if bool_decide (k' = k) then Some v else get k r
  end.

(** [o[k] = v]: the member is replaced where it stands, or added last. *)
Fixpoint set (k : string) (v : V) (ms : list (string * V)) : list (string * V) :=
  match ms with
  | [] => [(k, v)]
  | (k', v') :: r =>
      if bool_decide (k' = k) then (k', v) :: r else (k', v') :: set k v r
  end.
End Members.
End Members.

(** ** What the runtime provides *)

Section RequestTypes.
Variables Headers RequestInitRest : Type.

(** [init.headers]: an instance of [Headers], a plain object of strings, an
    array of name and value pairs, [null], or a primitive value. *)
Inductive HeadersInit : Type :=
| HeadersObject (h : Headers)
| PlainObject (o : gmap string string)
| PairArray (l : list (list string))
| NullHeaders
| Primitive (p : string).

(** [init]: its [headers] field ([None] when it is absent or [undefined])
    and the rest of it, which the wrapper does not look at. *)
Record RequestInit : Type := mkInit {
  headers : option HeadersInit;
  rest : RequestInitRest
}.
End RequestTypes.

Arguments HeadersObject {Headers} h.
Arguments PlainObject {Headers} o.
Arguments PairArray {Headers} l.
Arguments NullHeaders {Headers}.
Arguments Primitive {Headers} p.
Arguments mkInit {Headers RequestInitRest} headers rest.
Arguments headers {Headers RequestInitRest} r.
Arguments rest {Headers RequestInitRest} r.

(** A function of the runtime that can throw returns [None] when it does. *)
Class Platform : Type := {
  jnumber : Type;
  (** [ToBoolean] on a number of a JSON text *)
  jnumber_truthy : jnumber -> bool;
  atob : string -> option string;
  btoa : string -> option string;
  JSON_parse : string -> option (JSON jnumber);
  JSON_stringify : JSON jnumber -> string;
  (** [Array.prototype.toString] on an array of a JSON text *)
  Array_toString : list (JSON jnumber) -> string;
  (** the class [Headers]: [get] gives [None] for [null] *)
  Headers : Type;
  Headers_get : Headers -> string -> option string;
  Headers_set : Headers -> string -> string -> option Headers;
  (** the first argument of [fetch], the fields of [init] other than
      [headers], and what awaiting [fetch] gives (a response or a rejection) *)
  RequestInfo : Type;
  RequestInitRest : Type;
  Response : Type;
  fetch : RequestInfo -> option (RequestInit Headers RequestInitRest) -> Response
}.

(** ** The fetch wrapper *)

Section Wrapper.
Context `{P : Platform}.

Abbreviation Init := (RequestInit Headers RequestInitRest).
Abbreviation Json := (JSON jnumber).

(** The calls of the runtime that the wrapper makes, in order. *)
Inductive Call : Type :=
| CallAtob (data : string)
| CallParse (text : string)
| CallStringify (value : Json)
| CallBtoa (data : string)
| CallFetch (input : RequestInfo) (init : option Init).

(** A computation inside [try]: the calls made, and the value, or [None]
    when something was thrown. *)
Definition Try (A : Type) : Type := (list Call * option A)%type.

Definition lift {A} (r : option A) : Try A := ([], r).

Definition call {A} (c : Call) (r : option A) : Try A := ([c], r).

#[global] Instance Try_ret : MRet Try := fun A a => ([], Some a).

#[global] Instance Try_bind : MBind Try := fun A B k m =>
  match m with
  | (t, None) => (t, None)
  | (t, Some a) => let '(t', r) := k a in (t ++ t', r)
  end.

(** [ToBoolean] on a string or [undefined] or [null]. *)
Definition truthy (v : option string) : bool :=
  match v with
  | Some s => negb (bool_decide (s = EmptyString))
  | None => false
  end.

(** [a || b]. *)
Definition or_else (a b : option string) : option string :=
  if truthy a then a else b.

Infix "|||" := or_else (at level 50, left associativity).

(** [ToBoolean] on a value of a JSON text or [undefined]. *)
Definition truthyJSON (v : option Json) : bool :=
  match v with
  | None | Some JNull => false
  | Some (JBool b) => b
  | Some (JNumber n) => jnumber_truthy n
  | Some (JString s) => negb (bool_decide (s = EmptyString))
  | Some (JArray _) | Some (JObject _) => true
  end.

(** The value of [paymentHeader] after the search. An array has no
    property of these names. *)
Definition findPaymentHeader (init : option Init) : option string :=
  match init ≫= headers with
  | Some (HeadersObject h) =>
      Headers_get h "x-payment" ||| Headers_get h "X-PAYMENT" |||
      Headers_get h "payment-signature" ||| Headers_get h "PAYMENT-SIGNATURE"
  | Some (PlainObject o) =>
      o !! "x-payment" ||| o !! "X-PAYMENT" |||
      o !! "payment-signature" ||| o !! "PAYMENT-SIGNATURE"
  | Some (PairArray _) => None ||| None ||| None ||| None
  | Some NullHeaders | Some (Primitive _) | None => None
  end.

(** [decoded.payload?.signature]; reading [payload] off [null] throws, off a
    primitive value or an array it gives [undefined]. *)
Definition payloadSignature (decoded : Json) : option (option Json) :=
  match decoded with
  | JNull => None
  | JObject ms =>
      match Members.get "payload" ms with
      | Some (JObject ps) => Some (Members.get "signature" ps)
      | _ => Some None
      end
  | _ => Some None
  end.

(** [normalizeSignatureV(originalSig, chainId)] for the value found under
    [signature], which has no static type: an array has [slice] too and is
    turned into a string by [parseInt] and by [+]; any other value that is
    not a string has no [slice], and the call throws. *)
Definition normalizeSignatureV_any (originalSig : Json) (chainId : number) : option string :=
  match originalSig with
  | JString s => Some (normalizeSignatureV s chainId)
  | JArray l =>
      let vValue := parseInt (Array_toString (list.drop 130 l)) 16 in
      Some (reassemble (Array_toString (list.take 130 l)) (normalizedV vValue chainId))
  | _ => None
  end.

(** [decoded.payload.signature = normalizedSig]. *)
Definition setPayloadSignature (decoded : Json) (normalizedSig : string) : Json :=
  match decoded with
  | JObject ms =>
      match Members.get "payload" ms with
      | Some (JObject ps) =>
          JObject (Members.set "payload"
                     (JObject (Members.set "signature" (JString normalizedSig) ps)) ms)
      | _ => decoded
      end
  | _ => decoded
  end.

(** The update of the headers with the normalised payment. It is reached
    only after a payment header was found, so never for an array (see
    [findPaymentHeader_PairArray]). *)
Definition updateHeaders (init : option Init) (normalizedPaymentHeader : string)
  : option (option Init) :=
  match init with
  | Some i =>
      match headers i with
      | Some (HeadersObject h) =>
          h' ← Headers_set h "X-PAYMENT" normalizedPaymentHeader;
          Some (Some (mkInit (Some (HeadersObject h')) (rest i)))
      | Some (PlainObject o) =>
          let o1 := delete "x-payment" o in
          let o2 := delete "X-PAYMENT" o1 in
          let o3 := <["X-PAYMENT" := normalizedPaymentHeader]> o2 in
          Some (Some (mkInit (Some (PlainObject o3)) (rest i)))
      | _ => Some init
      end
  | None => Some init
  end.

(** The body of [try], from a truthy [paymentHeader]; the value is [init]
    as the body leaves it. *)
Definition tryNormalize (chainId : number) (init : option Init) (paymentHeader : string)
  : Try (option Init) :=
  binary ← call (CallAtob paymentHeader) (atob paymentHeader);
  decoded ← call (CallParse binary) (JSON_parse binary);
  signature ← lift (payloadSignature decoded);
  if truthyJSON signature then
    originalSig ← lift signature;
    normalizedSig ← lift (normalizeSignatureV_any originalSig chainId);
    let decoded' := setPayloadSignature decoded normalizedSig in
    text ← call (CallStringify decoded') (Some (JSON_stringify decoded'));
    normalizedPaymentHeader ← call (CallBtoa text) (btoa text);
    lift (updateHeaders init normalizedPaymentHeader)
  else
    mret init.

(** What one invocation of the wrapper does: the calls of the runtime it
    makes, the state in which it leaves the caller's [init] (the object it
    also hands to [fetch]), and what it returns. *)
Record Outcome : Type := mkOutcome {
  calls : list Call;
  init_after : option Init;
  returned : Response
}.

(** [createNormalizedFetch(chainId)(input, init)]. *)
Definition createNormalizedFetch (chainId : number)
    (input : RequestInfo) (init : option Init) : Outcome :=
  let paymentHeader := findPaymentHeader init in
  let '(trace, init') :=
    match paymentHeader with
    | Some value =>
        if truthy paymentHeader then
          match tryNormalize chainId init value with
          | (t, Some i') => (t, i')
          | (t, None) => (t, init)
          end
        else ([], init)
    | None => ([], init)
    end in
  mkOutcome (trace ++ [CallFetch input init']) init' (fetch input init').

End Wrapper.

(** ** A runtime that computes *)

(** An instance of [Platform] on which the wrapper runs: base64 as the
    runtime's [atob] and [btoa] do it, the header list behind the class
    [Headers], and JSON for the texts made of objects, arrays, strings,
    [true], [false], [null] and integers. *)
Module RefPlatform.

(** *** Base64 *)

Definition sextetChar (n : N) : ascii :=
  (if n <? 26 then ascii_of_N (n + 65)
   else if n <? 52 then ascii_of_N (n - 26 + 97)
   else if n <? 62 then ascii_of_N (n - 52 + 48)
   else if n =? 62 then "+"%char
   else "/"%char)%N.

Definition charSextet (c : ascii) : option N :=
  let n := N_of_ascii c in
  (if (65 <=? n) && (n <=? 90) then Some (n - 65)
   else if (97 <=? n) && (n <=? 122) then Some (n - 97 + 26)
   else if (48 <=? n) && (n <=? 57) then Some (n - 48 + 52)
   else if n =? 43 then Some 62
   else if n =? 47 then Some 63
   else None)%N.

Fixpoint encode (bytes : list N) : string :=
  (match bytes with
   | a :: b :: c :: r =>
       String (sextetChar (a / 4))
         (String (sextetChar ((a mod 4) * 16 + b / 16))
            (String (sextetChar ((b mod 16) * 4 + c / 64))
               (String (sextetChar (c mod 64)) (encode r))))
   | [a; b] =>
       String (sextetChar (a / 4))
         (String (sextetChar ((a mod 4) * 16 + b / 16))
            (String (sextetChar ((b mod 16) * 4)) "="))
   | [a] =>
       String (sextetChar (a / 4)) (String (sextetChar ((a mod 4) * 16)) "==")
   | [] => EmptyString
   end)%N.

(** [btoa]: every code unit of a [string] is below 256, so it never
    throws here. *)
Definition btoa (data : string) : option string :=
  Some (encode (N_of_ascii <$> list_ascii_of_string data)).

Definition isAsciiWhitespace (c : ascii) : bool :=
  let n := N_of_ascii c in
  ((n =? 9) || (n =? 10) || (n =? 12) || (n =? 13) || (n =? 32))%N.

(** The data without one or two [=] at its end. *)
Definition stripPadding (cs : list ascii) : list ascii :=
  match reverse cs with
  | "="%char :: "="%char :: r => reverse r
  | "="%char :: r => reverse r
  | _ => cs
  end.

Fixpoint decode (sextets : list N) : list N :=
  (match sextets with
   | a :: b :: c :: d :: r =>
       (a * 4 + b / 16) :: ((b mod 16) * 16 + c / 4) :: ((c mod 4) * 64 + d) :: decode r
   | [a; b; c] => [a * 4 + b / 16; (b mod 16) * 16 + c / 4]
   | [a; b] => [a * 4 + b / 16]
   | _ => []
   end)%N.

(** [atob]: the forgiving decoding of the runtime. *)
Definition atob (data : string) : option string :=
  let cs := filter (fun c => isAsciiWhitespace c = false) (list_ascii_of_string data) in
  let cs := if (length cs mod 4 =? 0)%nat then stripPadding cs else cs in
  if (length cs mod 4 =? 1)%nat then None
  else
    sextets ← mapM charSextet cs;
    Some (string_of_list_ascii (ascii_of_N <$> decode sextets)).

(** *** The class [Headers] *)

Definition lowerChar (c : ascii) : ascii :=
  let n := N_of_ascii c in
  if ((65 <=? n) && (n <=? 90))%N then ascii_of_N (n + 32) else c.

Fixpoint lower (s : string) : string :=
  match s with
  | String c r => String (lowerChar c) (lower r)
  | EmptyString => EmptyString
  end.

(** Two header names are the same when they differ by case only. *)
Definition sameName (a b : string) : bool := bool_decide (lower a = lower b).

(** The header list of an instance, in the order of insertion. *)
Definition Headers : Type := list (string * string).

Fixpoint joinValues (vs : list string) : string :=
  match vs with
  | [] => EmptyString
  | [v] => v
  | v :: r => v +:+ ", " +:+ joinValues r
  end.

(** [headers.get(name)]: the values under the name, joined. *)
Definition Headers_get (h : Headers) (name : string) : option string :=
  match filter (fun e => sameName e.1 name = true) h with
  | [] => None
  | es => Some (joinValues (snd <$> es))
  end.

Definition isHttpWhitespace (c : ascii) : bool :=
  let n := N_of_ascii c in
  ((n =? 9) || (n =? 10) || (n =? 13) || (n =? 32))%N.

Fixpoint stripStart (cs : list ascii) : list ascii :=
  match cs with
  | c :: r => if isHttpWhitespace c then stripStart r else cs
  | [] => []
  end.

(** A header value with its leading and trailing white space removed. *)
Definition normalizeValue (v : string) : string :=
  string_of_list_ascii
    (reverse (stripStart (reverse (stripStart (list_ascii_of_string v))))).

Definition validValue (v : string) : bool :=
  forallb (fun c => let n := N_of_ascii c in
                    negb ((n =? 0) || (n =? 10) || (n =? 13))%N)
          (list_ascii_of_string v).

(** The first header of the name takes the value, the others go. *)
Fixpoint replaceFirst (name value : string) (h : Headers) : Headers :=
  match h with
  | [] => []
  | (n, v) :: r =>
      if sameName n name
      then (n, value) :: filter (fun e => sameName e.1 name = false) r
      else (n, v) :: replaceFirst name value r
  end.

(** [headers.set(name, value)] for a valid name; an invalid value throws. *)
Definition Headers_set (h : Headers) (name value : string) : option Headers :=
  let value := normalizeValue value in
  if validValue value then
    match Headers_get h name with
    | Some _ => Some (replaceFirst name value h)
    | None => Some (h ++ [(name, value)])
    end
  else None.

(** *** JSON *)

(** The texts this instance reads are those whose numbers are integers that
    a double holds exactly, whose strings escape no code unit above 255 and
    whose objects have no array index among their member names; it answers
    [None] to any other text, so it is applied to texts of this kind
    only. *)

Definition quote : ascii := ascii_of_N 34.
Definition backslash : ascii := ascii_of_N 92.

Definition isJsonWhitespace (c : ascii) : bool :=
  let n := N_of_ascii c in
  ((n =? 9) || (n =? 10) || (n =? 13) || (n =? 32))%N.

Fixpoint skipWhitespace (s : string) : string :=
  match s with
  | String c r => if isJsonWhitespace c then skipWhitespace r else s
  | EmptyString => EmptyString
  end.

Definition hex4 (a b c d : ascii) : option Z :=
  match digitValue a, digitValue b, digitValue c, digitValue d with
  | Some x, Some y, Some z, Some w =>
      if (x <? 16) && (y <? 16) && (z <? 16) && (w <? 16)
      then Some (((x * 16 + y) * 16 + z) * 16 + w)
      else None
  | _, _, _, _ => None
  end.

(** The rest of a string literal after its opening quote. *)
Fixpoint parseChars (s : string) (acc : list ascii) : option (string * string) :=
  match s with
  | EmptyString => None
  | String c r =>
      let n := N_of_ascii c in
      if (n =? 34)%N then Some (string_of_list_ascii (reverse acc), r)
      else if (n =? 92)%N then
        match r with
        | String e r' =>
            let m := N_of_ascii e in
            if ((m =? 34) || (m =? 92) || (m =? 47))%N then parseChars r' (e :: acc)
            else if (m =? 98)%N then parseChars r' (ascii_of_N 8 :: acc)
            else if (m =? 102)%N then parseChars r' (ascii_of_N 12 :: acc)
            else if (m =? 110)%N then parseChars r' (ascii_of_N 10 :: acc)
            else if (m =? 114)%N then parseChars r' (ascii_of_N 13 :: acc)
            else if (m =? 116)%N then parseChars r' (ascii_of_N 9 :: acc)
            else if (m =? 117)%N then
              match r' with
              | String a (String b (String c' (String d r''))) =>
                  match hex4 a b c' d with
                  | Some u =>
                      if u <? 256 then parseChars r'' (ascii_of_N (Z.to_N u) :: acc)
                      else None
                  | None => None
                  end
              | _ => None
              end
            else None
        | EmptyString => None
        end
      else if (n <? 32)%N then None
      else parseChars r (c :: acc)
  end.

Definition isDigit (c : ascii) : bool :=
  let n := N_of_ascii c in ((48 <=? n) && (n <=? 57))%N.

Fixpoint parseDigits (s : string) (acc : Z) : Z * string :=
  match s with
  | String c r =>
      if isDigit c then parseDigits r (10 * acc + (Z.of_N (N_of_ascii c) - 48))
      else (acc, s)
  | EmptyString => (acc, s)
  end.

(** An integer literal that no fraction or exponent follows. *)
Definition parseNumber (s : string) : option (Z * string) :=
  let '(sign, s1) := match s with String "-" r => (-1, r) | _ => (1, s) end in
  match s1 with
  | String c r =>
      if isDigit c then
        let '(n, r') := if (N_of_ascii c =? 48)%N then (0, r) else parseDigits s1 0 in
        match r' with
        | String d _ =>
            let m := N_of_ascii d in
            if isDigit d || (m =? 46)%N || (m =? 101)%N || (m =? 69)%N then None
            else if n <? 2 ^ 53 then Some (sign * n, r') else None
        | EmptyString => if n <? 2 ^ 53 then Some (sign * n, r') else None
        end
      else None
  | EmptyString => None
  end.

Fixpoint startsWith (p s : string) : option string :=
  match p, s with
  | EmptyString, _ => Some s
  | String a p', String b s' => if bool_decide (a = b) then startsWith p' s' else None
  | _, _ => None
  end.

(** A member name that is an array index: the runtime would list it first. *)
Definition isArrayIndex (k : string) : bool :=
  match k with
  | String c r =>
      forallb isDigit (list_ascii_of_string k)
      && (negb (N_of_ascii c =? 48)%N || bool_decide (r = EmptyString))
  | EmptyString => false
  end.

Fixpoint parseValue (fuel : nat) (s : string) : option (JSON Z * string) :=
  match fuel with
  | O => None
  | S fuel' =>
      match skipWhitespace s with
      | String c r =>
          let n := N_of_ascii c in
          if (n =? 123)%N then
            match skipWhitespace r with
            | String "}" r' => Some (JObject [], r')
            | r' => parseMembers fuel' r' []
            end
          else if (n =? 91)%N then
            match skipWhitespace r with
            | String "]" r' => Some (JArray [], r')
            | r' => parseElements fuel' r' []
            end
          else if (n =? 34)%N then
            '(str, r') ← parseChars r []; Some (JString str, r')
          else
            match startsWith "true" (String c r), startsWith "false" (String c r),
                  startsWith "null" (String c r) with
            | Some r', _, _ => Some (JBool true, r')
            | _, Some r', _ => Some (JBool false, r')
            | _, _, Some r' => Some (JNull, r')
            | _, _, _ => '(z, r') ← parseNumber (String c r); Some (JNumber z, r')
            end
      | EmptyString => None
      end
  end
with parseElements (fuel : nat) (s : string) (acc : list (JSON Z))
  : option (JSON Z * string) :=
  match fuel with
  | O => None
  | S fuel' =>
      '(v, r) ← parseValue fuel' s;
      match skipWhitespace r with
      | String "," r' => parseElements fuel' r' (v :: acc)
      | String "]" r' => Some (JArray (reverse (v :: acc)), r')
      | _ => None
      end
  end
with parseMembers (fuel : nat) (s : string) (acc : list (string * JSON Z))
  : option (JSON Z * string) :=
  match fuel with
  | O => None
  | S fuel' =>
      match skipWhitespace s with
      | String q r =>
          if (N_of_ascii q =? 34)%N then
            '(k, r1) ← parseChars r [];
            if isArrayIndex k then None
            else
              match skipWhitespace r1 with
              | String ":" r2 =>
                  '(v, r3) ← parseValue fuel' r2;
                  let acc' := Members.set k v acc in
                  match skipWhitespace r3 with
                  | String "," r4 => parseMembers fuel' r4 acc'
                  | String "}" r4 => Some (JObject acc', r4)
                  | _ => None
                  end
              | _ => None
              end
          else None
      | EmptyString => None
      end
  end.

(** [JSON.parse(text)]. *)
Definition JSON_parse (text : string) : option (JSON Z) :=
  '(v, r) ← parseValue (S (String.length text)) text;
  if bool_decide (skipWhitespace r = EmptyString) then Some v else None.

Definition decimal (z : Z) : string := NilZero.string_of_int (Z.to_int z).

Definition quoteChar (c : ascii) : string :=
  let n := N_of_ascii c in
  (if n =? 34 then String backslash (String quote EmptyString)
   else if n =? 92 then String backslash (String backslash EmptyString)
   else if n =? 8 then String backslash "b"
   else if n =? 12 then String backslash "f"
   else if n =? 10 then String backslash "n"
   else if n =? 13 then String backslash "r"
   else if n =? 9 then String backslash "t"
   else if n <? 32 then
     String backslash "u00" +:+ padStart (toString16 (Num (Z.of_N n))) 2 "0"
   else String c EmptyString)%N.

Fixpoint quoteChars (s : string) : string :=
  match s with
  | String c r => quoteChar c +:+ quoteChars r
  | EmptyString => EmptyString
  end.

Definition quoteString (s : string) : string :=
  String quote (quoteChars s +:+ String quote EmptyString).

Fixpoint join (sep : string) (parts : list string) : string :=
  match parts with
  | [] => EmptyString
  | [p] => p
  | p :: r => p +:+ sep +:+ join sep r
  end.

(** [JSON.stringify(value)]. *)
Fixpoint JSON_stringify (v : JSON Z) : string :=
  match v with
  | JNull => "null"
  | JBool true => "true"
  | JBool false => "false"
  | JNumber z => decimal z
  | JString s => quoteString s
  | JArray l => "[" +:+ join "," (List.map JSON_stringify l) +:+ "]"
  | JObject ms =>
      "{" +:+ join "," (List.map (fun m => quoteString m.1 +:+ ":" +:+ JSON_stringify m.2) ms)
          +:+ "}"
  end.

(** [String(value)] for an element of an array. *)
Fixpoint toStringValue (v : JSON Z) : string :=
  match v with
  | JNull => EmptyString
  | JBool true => "true"
  | JBool false => "false"
  | JNumber z => decimal z
  | JString s => s
  | JArray l => join "," (List.map toStringValue l)
  | JObject _ => "[object Object]"
  end.

Definition Array_toString (l : list (JSON Z)) : string :=
  join "," (List.map toStringValue l).

(** *** The instance *)

(** [fetch] answers with the request it was given. *)
Definition Echo : Type := (string * option (RequestInit Headers unit))%type.

#[export] Instance platform : Platform :=
  Build_Platform
    Z (fun z => negb (z =? 0))
    atob btoa JSON_parse JSON_stringify Array_toString
    Headers Headers_get Headers_set
    string unit Echo (fun input init => (input, init)).

End RefPlatform.

(** * Vocabulary of the statements *)








(** The 130 code units of a signature that precede its recovery identifier:
    the prefix [0x], then [r] and [s]. *)
Definition sample_rs : string :=
  "0x9f150809ad6e882b6e8f0c4dc4b0c5d58d6fd84ee8d48aef7e37b8d60f3d4f6a"
  +:+ "4e2a1e9b0c3d5f7a9b1c3e5f7a9b1c3e5f7a9b1c3e5f7a9b1c3e5f7a9b1c3e5f".

Definition sampleSignature (vHex : string) : string := sample_rs +:+ vHex.

(** The names under which the wrapper looks for a payment, in the order of
    the search, and the value it reads under a name in each representation
    of the headers. *)
Section WrapperVocabulary.
Context `{P : Platform}.

Definition paymentHeaderNames : list string :=
  ["x-payment"; "X-PAYMENT"; "payment-signature"; "PAYMENT-SIGNATURE"].

Definition lookupHeader (hs : HeadersInit Headers) (name : string) : option string :=
  match hs with
  | HeadersObject h => Headers_get h name
  | PlainObject o => o !! name
  | PairArray _ | NullHeaders | Primitive _ => None
  end.


End WrapperVocabulary.

(** Requests on which the wrapper is run on [RefPlatform]. *)
Module Samples.
Import RefPlatform.

(** A payment envelope around a signature. *)
Definition envelope (signature : string) : JSON Z :=
  JObject [("x402Version", JNumber 1);
           ("scheme", JString "exact");
           ("payload", JObject [("signature", JString signature);
                                ("nonce", JNumber 7)])].

(** The header value that carries it. *)
Definition payment (signature : string) : string :=
  default EmptyString (btoa (JSON_stringify (envelope signature))).

Definition url : string := "https://oracle.example/api/basic".

Definition plainInit (o : gmap string string) : option (RequestInit Headers unit) :=
  Some (mkInit (Some (PlainObject o)) ()).

Definition classInit (h : Headers) : option (RequestInit Headers unit) :=
  Some (mkInit (Some (HeadersObject h)) ()).

(** The payment of a wallet on chain 43113 (v = 86262, yParity 1), and
    what the wrapper makes of it. *)
Definition fujiPayment : string := payment (sampleSignature "150f6").
Definition legacyPayment : string := payment (sampleSignature "1c").

End Samples.

(** * The command parser of the agent dashboard *)

(** [parseUserIntent] of [src/components/agent/agent-dashboard.tsx], with
    the table [SMART_COMMANDS] it reads and the string and regular
    expression operations it uses, on code units below 256. *)
Module Chat.

(** [String.prototype.toLowerCase]: the letters A to Z and the capital
    letters from 192 to 222 (215, the multiplication sign, is none) move up
    by 32. *)
Definition lowerUnit (c : ascii) : ascii :=
  let n := N_of_ascii c in
  if ((65 <=? n) && (n <=? 90) || (192 <=? n) && (n <=? 222) && negb (n =? 215))%N
  then ascii_of_N (n + 32) else c.

Fixpoint toLowerCase (s : string) : string :=
  match s with
  | String c r => String (lowerUnit c) (toLowerCase r)
  | EmptyString => EmptyString
  end.

(** [String.prototype.toUpperCase] on ASCII code units, which is all a
    match of the token pattern holds. *)
Definition upperUnit (c : ascii) : ascii :=
  let n := N_of_ascii c in
  if ((97 <=? n) && (n <=? 122))%N then ascii_of_N (n - 32) else c.

Fixpoint toUpperCase (s : string) : string :=
  match s with
  | String c r => String (upperUnit c) (toUpperCase r)
  | EmptyString => EmptyString
  end.

Fixpoint trimEnd (s : string) : string :=
  match s with
  | EmptyString => EmptyString
  | String c r =>
      match trimEnd r with
      | EmptyString => if isWhiteSpace c then EmptyString else String c EmptyString
      | r' => String c r'
      end
  end.

(** [String.prototype.trim]. *)
Definition trim (s : string) : string := trimEnd (trimStart s).

Fixpoint startsWith (s p : string) : bool :=
  match p, s with
  | EmptyString, _ => true
  | String a p', String b s' => bool_decide (a = b) && startsWith s' p'
  | String _ _, EmptyString => false
  end.

(** [String.prototype.includes]. *)
Fixpoint includes (s sub : string) : bool :=
  startsWith s sub ||
  match s with
  | String _ r => includes r sub
  | EmptyString => false
  end.

(** *** The pattern [/\b(eth|btc|avax|sol|usdc|usdt|matic|link|uni|aave)\b/i] *)

(** A word character of [\b]: a letter of A to Z in either case, a digit or
    the underscore. *)
Definition isWordChar (c : ascii) : bool :=
  let n := N_of_ascii c in
  ((48 <=? n) && (n <=? 57) || (65 <=? n) && (n <=? 90) || (n =? 95)
   || (97 <=? n) && (n <=? 122))%N.

(** Is there a word character at the start of [s]? *)
Definition wordAt (s : string) : bool :=
  match s with
  | String c _ => isWordChar c
  | EmptyString => false
  end.

(** The canonical form under which the flag [i] compares code units. Below
    128 it is the upper-case letter; a code unit from 128 on is never
    canonicalised to one below 128, so it is left as it is, which decides the
    same comparisons with the letters of the pattern. *)
Definition canonicalize (c : ascii) : ascii := upperUnit c.

(** The characters of [p] matched at the start of [s]: what follows them. *)
Fixpoint matchLiteral (p s : string) : option string :=
  match p, s with
  | EmptyString, _ => Some s
  | String a p', String b s' =>
      if bool_decide (canonicalize a = canonicalize b) then matchLiteral p' s' else None
  | String _ _, EmptyString => None
  end.

Definition alternatives : list string :=
  ["eth"; "btc"; "avax"; "sol"; "usdc"; "usdt"; "matic"; "link"; "uni"; "aave"].

(** The group and the [\b] after it, at a position: the alternatives are
    tried in order, and one counts when a word boundary follows it. Each
    ends in a letter, so the boundary is there when no word character
    follows. The result is the text captured. *)
Fixpoint matchGroup (alts : list string) (s : string) : option string :=
  match alts with
  | [] => None
  | a :: alts' =>
      match matchLiteral a s with
      | Some rest =>
          if negb (wordAt rest) then Some (take (String.length a) s)
          else matchGroup alts' s
      | None => matchGroup alts' s
      end
  end.

(** The whole pattern at a position; [prevWord] tells whether the code unit
    before the position is a word character. *)
Definition matchHere (prevWord : bool) (s : string) : option string :=
  if xorb prevWord (wordAt s) then matchGroup alternatives s else None.

(** The search of [String.prototype.match]: the first position, from the
    left, at which the pattern matches. *)
Fixpoint exec (prevWord : bool) (s : string) : option string :=
  match matchHere prevWord s with
  | Some captured => Some captured
  | None =>
      match s with
      | String c r => exec (isWordChar c) r
      | EmptyString => None
      end
  end.

(** *** The table and the parser *)

Record Command : Type := mkCommand {
  tokens : list string;
  description : string
}.

(** [SMART_COMMANDS], in the order of [Object.entries]. *)
Definition SMART_COMMANDS : list (string * Command) :=
  [("market summary",
    mkCommand ["BTC"; "ETH"; "AVAX"] "Get prices for top 3 cryptocurrencies");
   ("top coins",
    mkCommand ["BTC"; "ETH"; "SOL"; "AVAX"; "LINK"] "Get prices for top 5 cryptocurrencies");
   ("defi check",
    mkCommand ["ETH"; "AAVE"; "UNI"; "LINK"] "Check major DeFi tokens");
   ("stablecoins",
    mkCommand ["USDC"; "USDT"] "Check stablecoin prices")].

Record Intent : Type := mkIntent {
  intentTokens : list string;
  isSmartCommand : bool;
  commandName : option string
}.

(** The loop over the table: the first command that the message includes. *)
Fixpoint findCommand (commands : list (string * Command)) (lowerMessage : string)
  : option (string * Command) :=
  match commands with
  | [] => None
  | (command, config) :: rest =>
      if includes lowerMessage command then Some (command, config)
      else findCommand rest lowerMessage
  end.

Definition parseUserIntent (message : string) : Intent :=
  let lowerMessage := trim (toLowerCase message) in
  match findCommand SMART_COMMANDS lowerMessage with
  | Some (command, config) => mkIntent (tokens config) true (Some command)
  | None =>
      match exec false lowerMessage with
      | Some captured => mkIntent [toUpperCase captured] false None
      | None => mkIntent [] false None
      end
  end.

(** *** Vocabulary of the statements about the parser *)

(** [canonical s]: [s] with every code unit in canonical form; two strings
    are the same up to the case of their ASCII letters when their canonical
    forms are equal. *)
Fixpoint canonical (s : string) : string :=
  match s with
  | String c r => String (canonicalize c) (canonical r)
  | EmptyString => EmptyString
  end.

(** Is the last code unit of [s] a word character? *)
Fixpoint lastIsWord (s : string) : bool :=
  match s with
  | EmptyString => false
  | String c EmptyString => isWordChar c
  | String _ r => lastIsWord r
  end.

(** [name] stands in [s] at offset [i] as a whole word, in any case: no
    word character touches it on either side. *)
Definition wholeWordAt (s : string) (i : nat) (name : string) : Prop :=
  ∃ pre mid post,
    s = pre +:+ mid +:+ post ∧ String.length pre = i
    ∧ canonical mid = canonical name
    ∧ lastIsWord pre = false ∧ wordAt post = false.

(** [sub] stands somewhere in [s]. *)
Definition occursIn (sub s : string) : Prop :=
  ∃ pre post, s = pre +:+ sub +:+ post.

(** Is [s] made of word characters only? *)
Fixpoint allWord (s : string) : bool :=
  match s with
  | String c r => isWordChar c && allWord r
  | EmptyString => true
  end.

(** The names of the pattern in upper case. *)
Definition knownTokens : list string := toUpperCase <$> alternatives.

End Chat.

(** * The lists of the dashboard *)

(** The calls of the price service as the dashboard keeps and shows them:
    the state updates of [callPriceService] in
    [src/components/agent/agent-dashboard.tsx], the lists that
    [ServiceNetwork] of [src/components/agent/service-network.tsx] renders,
    and the short form of an address in
    [src/components/agent/wallet-balance.tsx] and in the withdraw dialog. *)
Module Dashboard.

Inductive Status : Type := pending | success | error.

#[global] Instance Status_eq_dec : EqDecision Status.
Proof. solve_decision. Defined.

Section Calls.
(** The numbers and the dates of a call are carried along and never looked
    at by the code below. *)
Context {JSNumber JSDate : Type}.

Record PriceResult : Type := mkResult {
  price : JSNumber;
  change24h : JSNumber
}.

Record ServiceCall : Type := mkCall {
  id : string;
  service : string;
  token : string;
  result : option PriceResult;
  cost : JSNumber;
  timestamp : JSDate;
  status : Status
}.

(** [Array.prototype.slice(-n)]: the start is [max (length - n) 0]. *)
Definition sliceLast {A : Type} (n : nat) (l : list A) : list A :=
  list.drop (length l - n) l.

Definition successfulCalls (serviceCalls : list ServiceCall) : list ServiceCall :=
  filter (λ c, status c = success) serviceCalls.

Definition pendingCalls (serviceCalls : list ServiceCall) : list ServiceCall :=
  filter (λ c, status c = pending) serviceCalls.

(** The rows under "Recent Results": [successfulCalls.slice(-5).reverse()]. *)
Definition recentResults (serviceCalls : list ServiceCall) : list ServiceCall :=
  reverse (sliceLast 5 (successfulCalls serviceCalls)).

(** The rows under "Live Payments": [serviceCalls.slice(-8).reverse()]. *)
Definition livePayments (serviceCalls : list ServiceCall) : list ServiceCall :=
  reverse (sliceLast 8 serviceCalls).

(** The two updates of the state [serviceCalls] in [callPriceService]:
    [prev => [...prev, pendingCall]] and
    [prev => prev.map(c => c.id === callId ? finished : c)]. *)
Definition addCall (pendingCall : ServiceCall) (prev : list ServiceCall) : list ServiceCall :=
  prev ++ [pendingCall].

Definition replaceCall (callId : string) (finished : ServiceCall) (prev : list ServiceCall)
  : list ServiceCall :=
  (λ c, if bool_decide (id c = callId) then finished else c) <$> prev.

(** [{ ...pendingCall, status: "success", result: ... }]; [priceData] is
    [None] when the reply holds no price data. *)
Definition successCall (pendingCall : ServiceCall) (priceData : option PriceResult)
  : ServiceCall :=
  mkCall (id pendingCall) (service pendingCall) (token pendingCall) priceData
         (cost pendingCall) (timestamp pendingCall) success.

(** [{ ...pendingCall, status: "error" }]. *)
Definition errorCall (pendingCall : ServiceCall) : ServiceCall :=
  mkCall (id pendingCall) (service pendingCall) (token pendingCall) (result pendingCall)
         (cost pendingCall) (timestamp pendingCall) error.

(** How the paid request ends: a reply with status 200 and [success] set,
    any other reply, or an exception (no wallet, the network, the body). *)
Inductive Reply : Type :=
  | paid (priceData : option PriceResult)
  | refused
  | thrown.

Definition finishedCall (pendingCall : ServiceCall) (reply : Reply) : ServiceCall :=
  match reply with
  | paid priceData => successCall pendingCall priceData
  | refused | thrown => errorCall pendingCall
  end.

(** [callPriceService] on the state: the state after its two updates, and
    the call it returns. *)
Definition callPriceService (pendingCall : ServiceCall) (reply : Reply)
    (prev : list ServiceCall) : list ServiceCall * ServiceCall :=
  let finished := finishedCall pendingCall reply in
  (replaceCall (id pendingCall) finished (addCall pendingCall prev), finished).

End Calls.

(** [s.slice(-n)] of a string. *)
Definition sliceFromEnd (n : nat) (s : string) : string :=
  JSString.drop (String.length s - n) s.

(** [`${address.slice(0, 6)}...${address.slice(-4)}`]. *)
Definition shortAddress (address : string) : string :=
  slice address 0 (Some 6%nat) +:+ "..." +:+ sliceFromEnd 4 address.

(** Two calls to run the updates on. *)
Definition earlierCall : @ServiceCall Z Z :=
  mkCall "1767225600000-ETH" "Price Oracle" "ETH" None 1000 1767225600000 success.

Definition laterCall : @ServiceCall Z Z :=
  mkCall "1767225600412-BTC" "Price Oracle" "BTC" None 1000 1767225600412 pending.

End Dashboard.

(** A call of [fetch] among the calls of the runtime. *)
Section CallVocabulary.
Context `{P : Platform}.


End CallVocabulary.

(** * Properties of the normaliser *)

Section NormalizerFacts.

Lemma app_cons (c : ascii) (s t : string) : String c s +:+ t = String c (s +:+ t).
Proof. reflexivity. Qed.

Lemma app_empty (t : string) : EmptyString +:+ t = t.
Proof. reflexivity. Qed.

Lemma take_drop (n : nat) (s : string) : take n s +:+ drop n s = s.
Proof.
  revert s. induction n as [|n IH]; intros [|c r]; simpl; try reflexivity.
  now rewrite app_cons, IH.
Qed.

Lemma length_app (s t : string) :
  String.length (s +:+ t) = (String.length s + String.length t)%nat.
Proof.
  induction s as [|c s IH]; [reflexivity |].
  rewrite app_cons. simpl. now rewrite IH.
Qed.

Lemma length_take_drop (n : nat) (s : string) :
  (String.length (take n s) + String.length (drop n s))%nat = String.length s.
Proof. rewrite <- length_app. now rewrite take_drop. Qed.

Lemma take_app_exact (s t : string) : take (String.length s) (s +:+ t) = s.
Proof.
  induction s as [|c s IH]; [now destruct t |].
  rewrite app_cons. simpl. now rewrite IH.
Qed.

(** Something is left after offset [n] only if there are [n] code units
    before it. *)
Lemma length_take_full (n : nat) (s : string) :
  drop n s ≠ EmptyString → String.length (take n s) = n.
Proof.
  revert s. induction n as [|n IH]; intros [|c r]; simpl; try congruence.
  intros H. now rewrite IH.
Qed.

Lemma take_reassemble (signature : string) (v : number) :
  drop 130 signature ≠ EmptyString →
  take 130 (reassemble (take 130 signature) v) = take 130 signature.
Proof.
  intros H. unfold reassemble.
  rewrite <- (length_take_full 130 signature H) at 1.
  apply take_app_exact.
Qed.

(** The source's function, with its two slices spelled out. *)
Lemma normalizeSignatureV_unfold (signature : string) (chainId : number) :
  normalizeSignatureV signature chainId =
  take 130 signature +:+
    padStart (toString16 (normalizedV (parseInt (drop 130 signature) 16) chainId)) 2 "0".
Proof. reflexivity. Qed.

(** The three recognised encodings of the recovery identifier. *)
Lemma normalizedV_yParity (v : Z) (chainId : number) :
  v = 0 ∨ v = 1 → normalizedV (Num v) chainId = Num (v + 27).
Proof. intros [-> | ->]; reflexivity. Qed.

Lemma normalizedV_legacy (v : Z) (chainId : number) :
  v = 27 ∨ v = 28 → normalizedV (Num v) chainId = Num v.
Proof. intros [-> | ->]; reflexivity. Qed.

Lemma normalizedV_eip155 (v chainId : Z) :
  35 ≤ v →
  normalizedV (Num v) (Num chainId) = Num (Z.rem (v - 35 - chainId * 2) 2 + 27).
Proof.
  intros Hv. unfold normalizedV, strictEq, ge; simpl.
  repeat match goal with
         | |- context [?a =? ?b] => destruct (Z.eqb_spec a b); [lia |]
         end.
  simpl. destruct (Z.leb_spec 35 v); [reflexivity | lia].
Qed.

Lemma normalizedV_eip155_of_chain (C y : Z) :
  0 ≤ C → y = 0 ∨ y = 1 →
  normalizedV (Num (C * 2 + 35 + y)) (Num C) = Num (27 + y).
Proof.
  intros HC Hy. rewrite normalizedV_eip155 by lia.
  replace (C * 2 + 35 + y - 35 - C * 2) with y by lia.
  destruct Hy as [-> | ->]; reflexivity.
Qed.


Lemma rendered_27 : padStart (toString16 (Num 27)) 2 "0" = "1b".
Proof. reflexivity. Qed.

Lemma rendered_28 : padStart (toString16 (Num 28)) 2 "0" = "1c".
Proof. reflexivity. Qed.

End NormalizerFacts.

(** ** [toString(16)] and [parseInt(_, 16)] agree *)

Section Rendering.









End Rendering.

(** ** Signatures with a recovery identifier of one or two digits *)

Section HexDigits.








End HexDigits.

(** ** The claims about the normaliser *)

(** C1, at an input where the code departs from it. A wallet on chain 1
    signs with v = 38 (yParity 1); the normaliser of chain 43113 gets the
    negative odd number 38 - 35 - 86226, whose mathematical residue modulo 2
    is 1 while the remainder [%] of the code is -1: the normalised v is 26,
    written [1a], and not 28. *)
Lemma eip155_remainder_of_negative :
  let signature := sampleSignature "26" in
  parseInt (slice signature 130 None) 16 = Num 38
  ∧ (38 - 35 - 43113 * 2) mod 2 = 1
  ∧ normalizedV (Num 38) (Num 43113) = Num 26
  ∧ normalizeSignatureV signature (Num 43113) = sample_rs +:+ "1a".
Proof. vm_compute. repeat split. Qed.

(** C3, as stated, fails: v = 86261 on chain 43113 is 43113 * 2 + 35 + 0,
    and the signature that ends in [150f5] is normalised to 27, written
    [1b], not to 28. *)
Lemma fuji_86261_counterexample :
  let signature := sampleSignature "150f5" in
  parseInt (slice signature 130 None) 16 = Num 86261
  ∧ normalizedV (Num 86261) (Num 43113) ≠ Num 28
  ∧ normalizeSignatureV signature (Num 43113) = sample_rs +:+ "1b".
Proof. vm_compute. repeat split. discriminate. Qed.

(** C3, amended: on chain 43113 a signature whose trailing v parses to
    86261 + yParity, for yParity 0 or 1, is normalised to 27 + yParity: 86261
    gives 27 ([1b]) and 86262 gives 28 ([1c]). *)
Theorem fuji_normalized (signature : string) (yParity : Z) :
  yParity = 0 ∨ yParity = 1 →
  parseInt (slice signature 130 None) 16 = Num (86261 + yParity) →
  normalizedV (parseInt (slice signature 130 None) 16) (Num 43113) = Num (27 + yParity)
  ∧ normalizeSignatureV signature (Num 43113) =
      slice signature 0 (Some 130%nat) +:+ (if decide (yParity = 0) then "1b" else "1c").
Proof.
  intros Hy Hv. unfold normalizeSignatureV. rewrite Hv.
  replace (86261 + yParity) with (43113 * 2 + 35 + yParity) by lia.
  rewrite normalizedV_eip155_of_chain by (lia || assumption).
  split; [reflexivity |].
  destruct Hy as [-> | ->]; reflexivity.
Qed.

Lemma fuji_normalized_witness :
  parseInt (slice (sampleSignature "150f6") 130 None) 16 = Num (86261 + 1)
  ∧ normalizeSignatureV (sampleSignature "150f6") (Num 43113) = sample_rs +:+ "1c".
Proof.
  split; [reflexivity |].
  apply (fuji_normalized (sampleSignature "150f6") 1); [right; reflexivity | reflexivity].
Defined.




(** C5, as stated, fails: [1B] parses to 27, and the output ends in the
    lower-case [1b], so the signature is not returned unchanged. *)
Lemma legacy_upper_case_changes :
  let signature := sampleSignature "1B" in
  parseInt (slice signature 130 None) 16 = Num 27
  ∧ normalizeSignatureV signature (Num 43113) = sampleSignature "1b"
  ∧ normalizeSignatureV signature (Num 43113) ≠ signature.
Proof. vm_compute. repeat split. discriminate. Qed.

(** C5, amended: for every signature whose trailing v parses to 27 or 28 and
    every chain id, the normalised v is that value, and the output is the
    first 130 code units of the input followed by it as two lower-case
    hexadecimal digits ([1b] or [1c]); the input is returned unchanged when
    it ends in exactly these two digits. *)
Theorem legacy_is_kept (signature : string) (v : Z) (chainId : number) :
  let rendered := if decide (v = 27) then "1b" else "1c" in
  v = 27 ∨ v = 28 →
  parseInt (slice signature 130 None) 16 = Num v →
  normalizedV (parseInt (slice signature 130 None) 16) chainId = Num v
  ∧ normalizeSignatureV signature chainId = slice signature 0 (Some 130%nat) +:+ rendered
  ∧ (slice signature 130 None = rendered → normalizeSignatureV signature chainId = signature).
Proof.
  intros rendered Hv Hparse. unfold normalizeSignatureV. rewrite Hparse.
  rewrite normalizedV_legacy by assumption.
  assert (Hr : reassemble (slice signature 0 (Some 130%nat)) (Num v)
               = slice signature 0 (Some 130%nat) +:+ rendered).
  { unfold rendered. destruct Hv as [-> | ->]; reflexivity. }
  split; [reflexivity |]. split; [exact Hr |].
  intros Htail. rewrite Hr, <- Htail. apply take_drop.
Qed.

Lemma legacy_is_kept_witness :
  parseInt (slice (sampleSignature "1c") 130 None) 16 = Num 28
  ∧ normalizeSignatureV (sampleSignature "1c") (Num 43113) = sampleSignature "1c".
Proof.
  split; [reflexivity |].
  apply (legacy_is_kept (sampleSignature "1c") 28 (Num 43113));
    [right; reflexivity | reflexivity | reflexivity].
Defined.



(** * Properties of the fetch wrapper *)

Section WrapperFacts.
Context `{P : Platform}.

Implicit Types (init : option (RequestInit Headers RequestInitRest))
               (hs : HeadersInit Headers) (o : gmap string string)
               (input : RequestInfo) (chainId : number) (v name : string).

Lemma truthy_Some v : truthy (Some v) = true ↔ v ≠ EmptyString.
Proof.
  unfold truthy. destruct (decide (v = EmptyString)) as [->|Hne].
  - rewrite bool_decide_eq_true_2 by reflexivity. simpl. split; [discriminate | congruence].
  - rewrite bool_decide_eq_false_2 by assumption. simpl. split; auto.
Qed.


Lemma or_else_l (a b : option string) : truthy a = true → or_else a b = a.
Proof. unfold or_else. now intros ->. Qed.

Lemma or_else_r (a b : option string) : truthy a = false → or_else a b = b.
Proof. unfold or_else. now intros ->. Qed.

(** The search is the same chain of [||] in every representation. *)
Lemma findPaymentHeader_chain hs (r : RequestInitRest) :
  findPaymentHeader (Some (mkInit (Some hs) r)) =
  or_else (or_else (or_else (lookupHeader hs "x-payment") (lookupHeader hs "X-PAYMENT"))
                   (lookupHeader hs "payment-signature"))
          (lookupHeader hs "PAYMENT-SIGNATURE").
Proof. destruct hs; reflexivity. Qed.

(** An array is never found to carry a payment. *)
Lemma findPaymentHeader_PairArray (l : list (list string)) (r : RequestInitRest) :
  findPaymentHeader (Some (mkInit (Some (PairArray l)) r)) = None.
Proof. reflexivity. Qed.

(** The first name with a non-empty value gives the payment header. *)
Lemma findPaymentHeader_first hs (r : RequestInitRest) (i : nat) name v :
  paymentHeaderNames !! i = Some name →
  lookupHeader hs name = Some v → v ≠ EmptyString →
  (∀ j name', (j < i)%nat → paymentHeaderNames !! j = Some name' →
              truthy (lookupHeader hs name') = false) →
  findPaymentHeader (Some (mkInit (Some hs) r)) = Some v.
Proof.
  intros Hname Hv Hne Hbefore. rewrite findPaymentHeader_chain.
  apply truthy_Some in Hne. rewrite <- Hv in Hne.
  assert (H0 : (0 < i)%nat → truthy (lookupHeader hs "x-payment") = false)
    by (intros; apply (Hbefore 0%nat); [assumption | reflexivity]).
  assert (H1 : (1 < i)%nat → truthy (lookupHeader hs "X-PAYMENT") = false)
    by (intros; apply (Hbefore 1%nat); [assumption | reflexivity]).
  assert (H2 : (2 < i)%nat → truthy (lookupHeader hs "payment-signature") = false)
    by (intros; apply (Hbefore 2%nat); [assumption | reflexivity]).
  rewrite <- Hv.
  set (a := lookupHeader hs "x-payment") in *.
  set (b := lookupHeader hs "X-PAYMENT") in *.
  set (c := lookupHeader hs "payment-signature") in *.
  set (d := lookupHeader hs "PAYMENT-SIGNATURE") in *.
  destruct i as [|[|[|[|i]]]]; simpl in Hname; try discriminate;
    injection Hname as <-.
  - now rewrite (or_else_l a b), (or_else_l a c), (or_else_l a d).
  - rewrite (or_else_r a b) by (apply H0; lia).
    now rewrite (or_else_l b c), (or_else_l b d).
  - rewrite (or_else_r a b), (or_else_r b c) by (apply H0 || apply H1; lia).
    now rewrite (or_else_l c d).
  - now rewrite (or_else_r a b), (or_else_r b c), (or_else_r c d)
      by (apply H0 || apply H1 || apply H2; lia).
Qed.



Lemma fetch_with_payment chainId input init v :
  findPaymentHeader init = Some v → v ≠ EmptyString →
  createNormalizedFetch chainId input init =
  let init' := default init (tryNormalize chainId init v).2 in
  mkOutcome ((tryNormalize chainId init v).1 ++ [CallFetch input init'])
            init' (fetch input init').
Proof.
  intros Hfind Hne. apply truthy_Some in Hne.
  unfold createNormalizedFetch. rewrite Hfind, Hne.
  destruct (tryNormalize chainId init v) as [t [i'|]]; reflexivity.
Qed.

(** Whatever is thrown inside [try] stays there: [init] is as it was and
    [fetch] is called with it. *)
Lemma throw_is_swallowed chainId input init v :
  findPaymentHeader init = Some v → v ≠ EmptyString →
  (tryNormalize chainId init v).2 = None →
  init_after (createNormalizedFetch chainId input init) = init
  ∧ returned (createNormalizedFetch chainId input init) = fetch input init.
Proof.
  intros Hfind Hne Hthrow.
  rewrite (fetch_with_payment chainId input init v Hfind Hne).
  cbv zeta. cbn [init_after returned]. now rewrite Hthrow.
Qed.

(** The computations inside [try]: a value passes through, a throw ends
    them, and the calls add up. *)
Lemma Try_bind_ret {A B : Type} (a : A) (k : A → Try B) : mret a ≫= k = k a.
Proof. unfold mret, mbind, Try_ret, Try_bind. now destruct (k a). Qed.

Lemma Try_bind_throw {A B : Type} (t : list Call) (k : A → Try B) :
  ((t, None) : Try A) ≫= k = (t, None).
Proof. reflexivity. Qed.

Lemma Try_bind_assoc {A B C : Type} (m : Try A) (k : A → Try B) (k' : B → Try C) :
  (m ≫= k) ≫= k' = m ≫= (λ a, k a ≫= k').
Proof.
  unfold mbind, Try_bind. destruct m as [t [a|]]; [| reflexivity].
  destruct (k a) as [t1 [b|]]; [| reflexivity].
  destruct (k' b) as [t2 r]. now rewrite app_assoc.
Qed.



Lemma call_bind_first {A B : Type} (c : Call) (r : option A) (k : A → Try B) :
  ∃ more, (call c r ≫= k).1 = c :: more.
Proof.
  destruct r as [a|]; cbn; [| eauto].
  destruct (k a) as [t res]. cbn. eauto.
Qed.

Lemma tryNormalize_first_call chainId init v :
  ∃ more, (tryNormalize chainId init v).1 = CallAtob v :: more.
Proof. unfold tryNormalize. apply call_bind_first. Qed.

Lemma tryNormalize_rewrites chainId init v
    (binary : string) (decoded sig : JSON jnumber) (normalizedSig v' : string) :
  atob v = Some binary →
  JSON_parse binary = Some decoded →
  payloadSignature decoded = Some (Some sig) →
  truthyJSON (Some sig) = true →
  normalizeSignatureV_any sig chainId = Some normalizedSig →
  btoa (JSON_stringify (setPayloadSignature decoded normalizedSig)) = Some v' →
  (tryNormalize chainId init v).2 = updateHeaders init v'.
Proof.
  intros Ha Hp Hs Ht Hn Hb. unfold tryNormalize.
  rewrite Ha. cbn. rewrite Hp. cbn. rewrite Hs. cbn.
  cbn in Ht. rewrite Ht. cbn. rewrite Hn. cbn. rewrite Hb. cbn.
  destruct (updateHeaders init v'); reflexivity.
Qed.

(** What the rewrite of a plain object touches: [X-PAYMENT] takes the new
    value and [x-payment] goes; the two other names keep what they had. *)
Lemma rewritten_plain_object o (v' : string) :
  let o' := <["X-PAYMENT" := v']> (delete "X-PAYMENT" (delete "x-payment" o)) in
  o' !! "X-PAYMENT" = Some v'
  ∧ o' !! "x-payment" = None
  ∧ o' !! "payment-signature" = o !! "payment-signature"
  ∧ o' !! "PAYMENT-SIGNATURE" = o !! "PAYMENT-SIGNATURE".
Proof. intros o'. unfold o'. repeat split; by simplify_map_eq. Qed.

End WrapperFacts.

(** ** The claims about the fetch wrapper *)

Section WrapperClaims.
Context `{P : Platform}.

Implicit Types (init : option (RequestInit Headers RequestInitRest))
               (hs : HeadersInit Headers) (o : gmap string string)
               (input : RequestInfo) (chainId : number) (v name : string).

(** C7: the search tries [x-payment], [X-PAYMENT], [payment-signature] and
    [PAYMENT-SIGNATURE] in this order, and the first name that has a value
    (a non-empty one) wins: its value is the payment header, it is what the
    wrapper decodes, and in a plain object it is what is normalised and
    written back under [X-PAYMENT]. With [x-payment] and [X-PAYMENT] both
    set, this is the value of [x-payment] (the case [i = 0]). *)
Theorem first_payment_header_wins chainId input (r : RequestInitRest) hs
    (i : nat) name v :
  paymentHeaderNames !! i = Some name →
  lookupHeader hs name = Some v → v ≠ EmptyString →
  (∀ j name', (j < i)%nat → paymentHeaderNames !! j = Some name' →
              truthy (lookupHeader hs name') = false) →
  let init := Some (mkInit (Some hs) r) in
  let out := createNormalizedFetch chainId input init in
  findPaymentHeader init = Some v
  ∧ (∃ more, calls out = CallAtob v :: more)
  ∧ (∀ o (binary : string) (decoded sig : JSON jnumber) (normalizedSig v' : string),
       hs = PlainObject o →
       atob v = Some binary →
       JSON_parse binary = Some decoded →
       payloadSignature decoded = Some (Some sig) →
       truthyJSON (Some sig) = true →
       normalizeSignatureV_any sig chainId = Some normalizedSig →
       btoa (JSON_stringify (setPayloadSignature decoded normalizedSig)) = Some v' →
       init_after out =
         Some (mkInit (Some (PlainObject
                 (<["X-PAYMENT" := v']> (delete "X-PAYMENT" (delete "x-payment" o))))) r)).
Proof.
  intros Hname Hv Hne Hbefore init out.
  pose proof (findPaymentHeader_first hs r i name v Hname Hv Hne Hbefore) as Hfind.
  pose proof (fetch_with_payment chainId input init v Hfind Hne) as Hout.
  fold out in Hout. split; [exact Hfind |]. split.
  - destruct (tryNormalize_first_call chainId init v) as [more Hmore].
    rewrite Hout. cbv zeta. cbn [calls]. rewrite Hmore. eexists. reflexivity.
  - intros o binary decoded sig normalizedSig v' -> Ha Hp Hs Ht Hn Hb.
    rewrite Hout. cbv zeta. cbn [init_after].
    rewrite (tryNormalize_rewrites chainId init v binary decoded sig normalizedSig v'
               Ha Hp Hs Ht Hn Hb).
    reflexivity.
Qed.




End WrapperClaims.

(** ** The wrapper at work on [RefPlatform] *)

Section Runs.
Import Samples.

(** The header values used below, as they travel. *)
Lemma fujiPayment_value :
  fujiPayment =
  "eyJ4NDAyVmVyc2lvbiI6MSwic2NoZW1lIjoiZXhhY3QiLCJwYXlsb2FkIjp7InNpZ25hdHVyZSI6Ij"
  +:+ "B4OWYxNTA4MDlhZDZlODgyYjZlOGYwYzRkYzRiMGM1ZDU4ZDZmZDg0ZWU4ZDQ4YWVmN2UzN2I4ZDYwZj"
  +:+ "NkNGY2YTRlMmExZTliMGMzZDVmN2E5YjFjM2U1ZjdhOWIxYzNlNWY3YTliMWMzZTVmN2E5YjFjM2U1Zj"
  +:+ "dhOWIxYzNlNWYxNTBmNiIsIm5vbmNlIjo3fX0=".
Proof. vm_compute. reflexivity. Qed.

Lemma legacyPayment_value :
  legacyPayment =
  "eyJ4NDAyVmVyc2lvbiI6MSwic2NoZW1lIjoiZXhhY3QiLCJwYXlsb2FkIjp7InNpZ25hdHVyZSI6Ij"
  +:+ "B4OWYxNTA4MDlhZDZlODgyYjZlOGYwYzRkYzRiMGM1ZDU4ZDZmZDg0ZWU4ZDQ4YWVmN2UzN2I4ZDYwZj"
  +:+ "NkNGY2YTRlMmExZTliMGMzZDVmN2E5YjFjM2U1ZjdhOWIxYzNlNWY3YTliMWMzZTVmN2E5YjFjM2U1Zj"
  +:+ "dhOWIxYzNlNWYxYyIsIm5vbmNlIjo3fX0=".
Proof. vm_compute. reflexivity. Qed.

Lemma fujiPayment_decoded :
  RefPlatform.atob fujiPayment ≫= RefPlatform.JSON_parse
  = Some (envelope (sampleSignature "150f6")).
Proof. vm_compute. reflexivity. Qed.

(** C2, at an input where the code departs from it. A payment that arrives
    under [payment-signature] is normalised and written under [X-PAYMENT],
    and the header it came from stays, with the signature as it was: two
    payment headers leave the wrapper, in a plain object and in an instance
    of [Headers] alike. *)
Lemma legacy_name_survives_rewrite :
  let out := createNormalizedFetch (P := RefPlatform.platform) (Num 43113) url
               (plainInit {["payment-signature" := fujiPayment]}) in
  let out' := createNormalizedFetch (P := RefPlatform.platform) (Num 43113) url
                (classInit [("payment-signature", fujiPayment)]) in
  init_after out =
    plainInit {["payment-signature" := fujiPayment; "X-PAYMENT" := legacyPayment]}
  ∧ init_after out' =
      classInit [("payment-signature", fujiPayment); ("X-PAYMENT", legacyPayment)]
  ∧ fujiPayment ≠ legacyPayment.
Proof. vm_compute. repeat split. discriminate. Qed.

Lemma first_payment_header_wins_witness :
  let o : gmap string string :=
    {["x-payment" := fujiPayment; "X-PAYMENT" := payment (sampleSignature "1b")]} in
  findPaymentHeader (P := RefPlatform.platform) (plainInit o) = Some fujiPayment
  ∧ init_after (createNormalizedFetch (P := RefPlatform.platform) (Num 43113) url (plainInit o))
    = plainInit {["X-PAYMENT" := legacyPayment]}.
Proof.
  intros o.
  destruct (first_payment_header_wins (P := RefPlatform.platform)
              (Num 43113) url () (PlainObject o) 0 "x-payment" fujiPayment)
    as (Hfind & _ & Hrewrite);
    [reflexivity | vm_compute; reflexivity | vm_compute; discriminate | intros; lia |].
  split; [exact Hfind |].
  etrans;
    [ apply (Hrewrite o (RefPlatform.JSON_stringify (envelope (sampleSignature "150f6")))
               (envelope (sampleSignature "150f6")) (JString (sampleSignature "150f6"))
               (sampleSignature "1c") legacyPayment)
    | ];
    vm_compute; reflexivity.
Defined.




End Runs.

(** * More about the normaliser *)

Section NormalizerMore.

Lemma length_take_string (n : nat) (s : string) :
  String.length (take n s) = Nat.min n (String.length s).
Proof.
  revert s. induction n as [|n IH]; intros [|c r]; simpl; try reflexivity.
  now rewrite IH.
Qed.

Lemma drop_app_exact (s t : string) : drop (String.length s) (s +:+ t) = t.
Proof.
  induction s as [|c s IH]; [now destruct t |].
  rewrite app_cons. simpl. exact IH.
Qed.

Lemma take_short (n : nat) (s : string) : (String.length s ≤ n)%nat → take n s = s.
Proof.
  revert s. induction n as [|n IH]; intros [|c r]; simpl; intros H; try reflexivity; try lia.
  f_equal. apply IH. lia.
Qed.

Lemma drop_short (n : nat) (s : string) : (String.length s ≤ n)%nat → drop n s = EmptyString.
Proof.
  revert s. induction n as [|n IH]; intros [|c r]; simpl; intros H; try reflexivity; try lia.
  apply IH. lia.
Qed.










End NormalizerMore.

(** X1: a signature whose trailing v parses to 0 or 1 (the yParity form) is
    normalised to 27 or 28 whatever the chain id, a number or not: the
    output is the first 130 code units followed by [1b] or [1c]. *)
Theorem yParity_becomes_legacy (signature : string) (v : Z) (chainId : number) :
  v = 0 ∨ v = 1 →
  parseInt (slice signature 130 None) 16 = Num v →
  normalizedV (parseInt (slice signature 130 None) 16) chainId = Num (v + 27)
  ∧ normalizeSignatureV signature chainId =
      slice signature 0 (Some 130%nat) +:+ (if decide (v = 0) then "1b" else "1c").
Proof.
  intros Hv Hparse. unfold normalizeSignatureV. rewrite Hparse.
  rewrite normalizedV_yParity by assumption. split; [reflexivity |].
  destruct Hv as [-> | ->]; reflexivity.
Qed.

Lemma yParity_becomes_legacy_witness :
  parseInt (slice (sampleSignature "01") 130 None) 16 = Num 1
  ∧ normalizeSignatureV (sampleSignature "01") NaN = sample_rs +:+ "1c".
Proof.
  split; [reflexivity |].
  apply (yParity_becomes_legacy (sampleSignature "01") 1 NaN);
    [right; reflexivity | reflexivity].
Defined.



(** X3: a signature of at most 130 code units has nothing where its recovery
    identifier should be; the normaliser returns it with the three code
    units [NaN] appended. *)
Theorem short_signature_gets_NaN (signature : string) (chainId : number) :
  (String.length signature ≤ 130)%nat →
  normalizeSignatureV signature chainId = signature +:+ "NaN".
Proof.
  intros Hlen. rewrite normalizeSignatureV_unfold.
  now rewrite take_short, drop_short by assumption.
Qed.

Lemma short_signature_gets_NaN_witness :
  normalizeSignatureV sample_rs (Num 43113) = sample_rs +:+ "NaN".
Proof.
  apply (short_signature_gets_NaN sample_rs (Num 43113)). vm_compute. lia.
Defined.







(** * More about the fetch wrapper *)

Section WrapperMore.
Context `{P : Platform}.

Implicit Types (init : option (RequestInit Headers RequestInitRest))
               (hs : HeadersInit Headers) (o : gmap string string)
               (input : RequestInfo) (chainId : number) (v name : string).



(** X8: when the payment header decodes and parses, and the envelope has no
    [payload.signature] or a falsy one (the envelope is not an object, it has
    no [payload] or a [payload] that is [null] or not an object, or the
    signature is absent, [null], [false], zero or the empty string), nothing
    is re-encoded: after [atob] and [JSON.parse] the wrapper only calls
    [fetch] with the [init] it was given. *)
Theorem falsy_signature chainId input init v (binary : string) (decoded : JSON jnumber)
    (signature : option (JSON jnumber)) :
  findPaymentHeader init = Some v → v ≠ EmptyString →
  atob v = Some binary →
  JSON_parse binary = Some decoded →
  payloadSignature decoded = Some signature →
  truthyJSON signature = false →
  createNormalizedFetch chainId input init
  = mkOutcome [CallAtob v; CallParse binary; CallFetch input init] init (fetch input init).
Proof.
  intros Hfind Hne Ha Hp Hs Ht.
  rewrite (fetch_with_payment chainId input init v Hfind Hne).
  unfold tryNormalize. rewrite Ha. cbn. rewrite Hp. cbn. rewrite Hs. cbn. rewrite Ht.
  reflexivity.
Qed.

(** X9: what is thrown after the envelope was parsed stays inside too. When
    the envelope is [null], or the signature is truthy and neither a string
    nor an array, or [btoa] throws, or [Headers.set] throws, the wrapper
    leaves [init] as it was, calls [fetch] with it last and returns what
    [fetch] returns. *)
Theorem later_throw_is_swallowed chainId input init v (binary : string)
    (decoded : JSON jnumber) :
  findPaymentHeader init = Some v → v ≠ EmptyString →
  atob v = Some binary →
  JSON_parse binary = Some decoded →
  (payloadSignature decoded = None
   ∨ ∃ sig, payloadSignature decoded = Some (Some sig) ∧ truthyJSON (Some sig) = true
       ∧ (normalizeSignatureV_any sig chainId = None
          ∨ ∃ normalizedSig, normalizeSignatureV_any sig chainId = Some normalizedSig
              ∧ (btoa (JSON_stringify (setPayloadSignature decoded normalizedSig)) = None
                 ∨ ∃ v', btoa (JSON_stringify (setPayloadSignature decoded normalizedSig))
                         = Some v'
                         ∧ updateHeaders init v' = None))) →
  let out := createNormalizedFetch chainId input init in
  init_after out = init
  ∧ returned out = fetch input init
  ∧ last (calls out) = Some (CallFetch input init).
Proof.
  intros Hfind Hne Ha Hp Hcause out.
  assert (Hthrow : (tryNormalize chainId init v).2 = None).
  { unfold tryNormalize. rewrite Ha. cbn. rewrite Hp. cbn.
    destruct Hcause as [Hs | (sig & Hs & Ht & Hcause)]; rewrite Hs; cbn; [reflexivity |].
    cbn in Ht. rewrite Ht. cbn.
    destruct Hcause as [Hn | (nsig & Hn & Hcause)]; rewrite Hn; cbn; [reflexivity |].
    destruct Hcause as [Hb | (v' & Hb & Hu)]; rewrite Hb; cbn; [reflexivity |].
    now rewrite Hu. }
  unfold out. rewrite (fetch_with_payment chainId input init v Hfind Hne).
  cbv zeta. cbn [init_after returned calls]. rewrite Hthrow. cbn [default].
  repeat split. apply last_snoc.
Qed.

(** Members of an object: what is written is read back, the other members
    and the order of the names stay. *)
Lemma Members_get_set {V : Type} (k : string) (v : V) (ms : list (string * V)) :
  Members.get k (Members.set k v ms) = Some v.
Proof.
  induction ms as [|[k' v'] ms IH]; simpl.
  - now rewrite bool_decide_eq_true_2.
  - destruct (decide (k' = k)) as [-> | Hne].
    + rewrite bool_decide_eq_true_2 by reflexivity. simpl.
      now rewrite bool_decide_eq_true_2.
    + rewrite bool_decide_eq_false_2 by assumption. simpl.
      now rewrite bool_decide_eq_false_2.
Qed.

Lemma Members_get_set_ne {V : Type} (k k0 : string) (v : V) (ms : list (string * V)) :
  k0 ≠ k → Members.get k0 (Members.set k v ms) = Members.get k0 ms.
Proof.
  intros Hne. induction ms as [|[k' v'] ms IH]; simpl.
  - rewrite bool_decide_eq_false_2; [reflexivity | congruence].
  - destruct (decide (k' = k)) as [-> | Hk].
    + rewrite bool_decide_eq_true_2 by reflexivity. simpl.
      rewrite !bool_decide_eq_false_2 by congruence. reflexivity.
    + rewrite (bool_decide_eq_false_2 (k' = k)) by assumption. simpl.
      destruct (bool_decide (k' = k0)); [reflexivity | exact IH].
Qed.

Lemma Members_names_set {V : Type} (k : string) (v : V) (ms : list (string * V)) :
  is_Some (Members.get k ms) → (Members.set k v ms).*1 = ms.*1.
Proof.
  induction ms as [|[k' v'] ms IH]; simpl; intros [x Hx]; [discriminate |].
  destruct (decide (k' = k)) as [-> | Hk].
  - rewrite bool_decide_eq_true_2 by reflexivity. reflexivity.
  - rewrite bool_decide_eq_false_2 in * by assumption. simpl. f_equal. apply IH. eauto.
Qed.

Lemma Members_set_same {V : Type} (k : string) (v : V) (ms : list (string * V)) :
  Members.get k ms = Some v → Members.set k v ms = ms.
Proof.
  induction ms as [|[k' v'] ms IH]; simpl; [discriminate |].
  destruct (decide (k' = k)) as [-> | Hk].
  - rewrite !bool_decide_eq_true_2 by reflexivity. now intros [= ->].
  - rewrite !bool_decide_eq_false_2 by assumption. intros H. f_equal. now apply IH.
Qed.

(** An envelope in which a signature was found is an object with an object
    under [payload]. *)
Lemma payloadSignature_shape (decoded : JSON jnumber) (signature : JSON jnumber) :
  payloadSignature decoded = Some (Some signature) →
  ∃ ms ps, decoded = JObject ms ∧ Members.get "payload" ms = Some (JObject ps)
           ∧ Members.get "signature" ps = Some signature.
Proof.
  destruct decoded as [| | | | |ms]; try discriminate. simpl.
  destruct (Members.get "payload" ms) as [[| | | | |ps]|] eqn:Hp; try discriminate.
  intros [= Hs]. eauto.
Qed.

Lemma setPayloadSignature_read (decoded signature : JSON jnumber) (s : string) :
  payloadSignature decoded = Some (Some signature) →
  payloadSignature (setPayloadSignature decoded s) = Some (Some (JString s)).
Proof.
  intros H. destruct (payloadSignature_shape decoded signature H) as (ms & ps & -> & Hp & Hs).
  simpl. rewrite Hp. simpl. now rewrite !Members_get_set.
Qed.

Lemma setPayloadSignature_same (decoded : JSON jnumber) (s : string) :
  payloadSignature decoded = Some (Some (JString s)) →
  setPayloadSignature decoded s = decoded.
Proof.
  intros H. destruct (payloadSignature_shape decoded _ H) as (ms & ps & -> & Hp & Hs).
  simpl. rewrite Hp. f_equal.
  rewrite (Members_set_same "signature" (JString s) ps Hs).
  now apply Members_set_same.
Qed.

(** A signature that ends in [1b] or [1c] at offset 130 is returned as it
    is. *)
Lemma normalize_canonical (signature : string) (chainId : number) :
  drop 130 signature = "1b" ∨ drop 130 signature = "1c" →
  normalizeSignatureV signature chainId = signature.
Proof.
  intros Htail. rewrite normalizeSignatureV_unfold.
  rewrite <- (take_drop 130 signature) at 3.
  destruct Htail as [-> | ->]; reflexivity.
Qed.

Lemma Members_set_split {V : Type} (k : string) (x v : V) (ms : list (string * V)) :
  Members.get k ms = Some x →
  ∃ l1 l2, ms = l1 ++ (k, x) :: l2 ∧ (k ∉ l1.*1)
           ∧ Members.set k v ms = l1 ++ (k, v) :: l2.
Proof.
  induction ms as [|[k' v'] ms IH]; simpl; [discriminate |].
  destruct (decide (k' = k)) as [-> | Hk].
  - rewrite !bool_decide_eq_true_2 by reflexivity. intros [= ->].
    exists [], ms. repeat split. apply not_elem_of_nil.
  - rewrite !bool_decide_eq_false_2 by assumption. intros H.
    destruct (IH H) as (l1 & l2 & -> & Hnot & ->).
    exists ((k', v') :: l1), l2. repeat split.
    simpl. apply not_elem_of_cons. split; [congruence | exact Hnot].
Qed.

(** The full list of calls when every step succeeds. *)
Lemma tryNormalize_calls chainId init v
    (binary : string) (decoded sig : JSON jnumber) (normalizedSig v' : string) :
  atob v = Some binary →
  JSON_parse binary = Some decoded →
  payloadSignature decoded = Some (Some sig) →
  truthyJSON (Some sig) = true →
  normalizeSignatureV_any sig chainId = Some normalizedSig →
  btoa (JSON_stringify (setPayloadSignature decoded normalizedSig)) = Some v' →
  (tryNormalize chainId init v).1 =
  [CallAtob v; CallParse binary; CallStringify (setPayloadSignature decoded normalizedSig);
   CallBtoa (JSON_stringify (setPayloadSignature decoded normalizedSig))].
Proof.
  intros Ha Hp Hs Ht Hn Hb. unfold tryNormalize.
  rewrite Ha. cbn. rewrite Hp. cbn. rewrite Hs. cbn.
  cbn in Ht. rewrite Ht. cbn. rewrite Hn. cbn. rewrite Hb. cbn.
  destruct (updateHeaders init v'); reflexivity.
Qed.

(** X10: a rewrite of a plain object of headers touches the names
    [x-payment] and [X-PAYMENT] only. Afterwards [X-PAYMENT] holds the
    re-encoded payment, [x-payment] is absent, and every other header has
    the value it had; when neither [payment-signature] nor
    [PAYMENT-SIGNATURE] was set, [X-PAYMENT] is the only payment header
    left. *)
Theorem plain_rewrite_touches_two_names chainId input (r : RequestInitRest) o v
    (binary : string) (decoded sig : JSON jnumber) (normalizedSig v' : string) :
  let init := Some (mkInit (Some (PlainObject o)) r) in
  let out := createNormalizedFetch chainId input init in
  findPaymentHeader init = Some v → v ≠ EmptyString →
  atob v = Some binary →
  JSON_parse binary = Some decoded →
  payloadSignature decoded = Some (Some sig) →
  truthyJSON (Some sig) = true →
  normalizeSignatureV_any sig chainId = Some normalizedSig →
  btoa (JSON_stringify (setPayloadSignature decoded normalizedSig)) = Some v' →
  ∃ o', init_after out = Some (mkInit (Some (PlainObject o')) r)
        ∧ o' !! "X-PAYMENT" = Some v'
        ∧ o' !! "x-payment" = None
        ∧ (∀ name, name ≠ "x-payment" → name ≠ "X-PAYMENT" → o' !! name = o !! name)
        ∧ (o !! "payment-signature" = None → o !! "PAYMENT-SIGNATURE" = None →
           ∀ name, name ∈ paymentHeaderNames → is_Some (o' !! name) → name = "X-PAYMENT").
Proof.
  intros init out Hfind Hne Ha Hp Hs Ht Hn Hb.
  exists (<["X-PAYMENT" := v']> (delete "X-PAYMENT" (delete "x-payment" o))).
  split.
  { unfold out. rewrite (fetch_with_payment chainId input init v Hfind Hne).
    cbv zeta. cbn [init_after].
    now rewrite (tryNormalize_rewrites chainId init v binary decoded sig normalizedSig v'
                   Ha Hp Hs Ht Hn Hb). }
  split; [by simplify_map_eq |]. split; [by simplify_map_eq |].
  split; [intros name H1 H2; by simplify_map_eq |].
  intros Hl1 Hl2 name Hin [x Hx]. unfold paymentHeaderNames in Hin.
  repeat (apply elem_of_cons in Hin as [-> | Hin]); try reflexivity;
    [ | | | now apply elem_of_nil in Hin ]; simplify_map_eq.
Qed.

(** X11: the assignment to [decoded.payload.signature] replaces one value
    in place. The envelope afterwards is the envelope before, with the same
    members in the same order at both levels, except that the first
    [signature] of the first [payload] is the normalised string; reading
    [payload.signature] back gives that string. *)
Theorem only_the_signature_changes (decoded signature : JSON jnumber) (s : string) :
  payloadSignature decoded = Some (Some signature) →
  ∃ l1 l2 p1 p2,
    decoded
    = JObject (l1 ++ ("payload", JObject (p1 ++ ("signature", signature) :: p2)) :: l2)
    ∧ setPayloadSignature decoded s
      = JObject (l1 ++ ("payload", JObject (p1 ++ ("signature", JString s) :: p2)) :: l2)
    ∧ ("payload" ∉ l1.*1) ∧ ("signature" ∉ p1.*1)
    ∧ payloadSignature (setPayloadSignature decoded s) = Some (Some (JString s)).
Proof.
  intros H. pose proof (setPayloadSignature_read decoded signature s H) as Hread.
  destruct (payloadSignature_shape decoded signature H) as (ms & ps & -> & Hp & Hs).
  destruct (Members_set_split "signature" signature (JString s) ps Hs)
    as (p1 & p2 & -> & Hp1 & Hset).
  destruct (Members_set_split "payload" _
              (JObject (p1 ++ ("signature", JString s) :: p2)) ms Hp)
    as (l1 & l2 & -> & Hl1 & Hset').
  exists l1, l2, p1, p2. split; [reflexivity |].
  split; [| repeat split; assumption].
  simpl. simpl in Hp. rewrite Hp. rewrite Hset. now rewrite Hset'.
Qed.

(** X12: when the signature of the envelope is a string that ends in [1b]
    or [1c] at offset 130, the normaliser returns it as it is and the
    assignment leaves the envelope as it was decoded: what the wrapper hands
    to [JSON.stringify], and then to [btoa], is the decoded envelope. *)
Theorem legacy_envelope_is_reencoded chainId input init v
    (binary : string) (decoded : JSON jnumber) (s : string) :
  findPaymentHeader init = Some v → v ≠ EmptyString →
  atob v = Some binary →
  JSON_parse binary = Some decoded →
  payloadSignature decoded = Some (Some (JString s)) →
  slice s 130 None = "1b" ∨ slice s 130 None = "1c" →
  normalizeSignatureV_any (JString s) chainId = Some s
  ∧ setPayloadSignature decoded s = decoded
  ∧ ∃ more, calls (createNormalizedFetch chainId input init)
            = CallAtob v :: CallParse binary :: CallStringify decoded
              :: CallBtoa (JSON_stringify decoded) :: more.
Proof.
  intros Hfind Hne Ha Hp Hs Htail.
  assert (Hnorm : normalizeSignatureV s chainId = s) by now apply normalize_canonical.
  assert (Hsame : setPayloadSignature decoded s = decoded) by now apply setPayloadSignature_same.
  split; [simpl; now rewrite Hnorm |]. split; [exact Hsame |].
  assert (Htruthy : truthyJSON (Some (JString s : JSON jnumber)) = true).
  { simpl. rewrite bool_decide_eq_false_2; [reflexivity |].
    intros ->. destruct Htail as [Ht | Ht]; discriminate Ht. }
  rewrite (fetch_with_payment chainId input init v Hfind Hne). cbv zeta. cbn [calls].
  unfold tryNormalize. rewrite Ha. cbn. rewrite Hp. cbn. rewrite Hs. cbn.
  cbn in Htruthy. rewrite Htruthy. cbn. rewrite Hnorm, Hsame.
  destruct (btoa (JSON_stringify decoded)) as [v'|]; cbn; [| eauto].
  destruct (updateHeaders init v'); cbn; eauto.
Qed.




End WrapperMore.

(** ** The wrapper at work, again *)

Section MoreRuns.
Import Samples.

Lemma falsy_signature_witness :
  let init := plainInit {["X-PAYMENT" := "eyJwYXlsb2FkIjp7fX0="]} in
  init_after (createNormalizedFetch (P := RefPlatform.platform) (Num 43113) url init) = init.
Proof.
  intros init.
  rewrite (falsy_signature (P := RefPlatform.platform) (Num 43113) url init
             "eyJwYXlsb2FkIjp7fX0="
             (RefPlatform.JSON_stringify (JObject [("payload", JObject [])]))
             (JObject [("payload", JObject [])]) None);
    [reflexivity | vm_compute; reflexivity | vm_compute; discriminate
    | vm_compute; reflexivity | vm_compute; reflexivity | reflexivity | reflexivity].
Defined.

Lemma later_throw_is_swallowed_witness :
  let init := classInit [("x-payment", "bnVsbA==")] in
  init_after (createNormalizedFetch (P := RefPlatform.platform) (Num 43113) url init) = init.
Proof.
  intros init.
  apply (later_throw_is_swallowed (P := RefPlatform.platform) (Num 43113) url init
           "bnVsbA==" "null" JNull);
    [vm_compute; reflexivity | vm_compute; discriminate
    | vm_compute; reflexivity | vm_compute; reflexivity | left; reflexivity].
Defined.

Lemma plain_rewrite_touches_two_names_witness :
  let o : gmap string string :=
    {["x-payment" := fujiPayment; "Content-Type" := "application/json"]} in
  ∃ o', init_after (createNormalizedFetch (P := RefPlatform.platform)
                      (Num 43113) url (plainInit o)) = plainInit o'
        ∧ o' !! "X-PAYMENT" = Some legacyPayment
        ∧ o' !! "x-payment" = None
        ∧ o' !! "Content-Type" = Some "application/json".
Proof.
  intros o.
  destruct (plain_rewrite_touches_two_names (P := RefPlatform.platform)
              (Num 43113) url () o fujiPayment
              (RefPlatform.JSON_stringify (envelope (sampleSignature "150f6")))
              (envelope (sampleSignature "150f6")) (JString (sampleSignature "150f6"))
              (sampleSignature "1c") legacyPayment)
    as (o' & Hafter & HX & Hx & Hother & _);
    [vm_compute; reflexivity | vm_compute; discriminate | vm_compute; reflexivity
    | vm_compute; reflexivity | reflexivity | reflexivity | vm_compute; reflexivity
    | vm_compute; reflexivity |].
  exists o'. split; [exact Hafter |]. split; [exact HX |]. split; [exact Hx |].
  rewrite Hother by discriminate. vm_compute. reflexivity.
Defined.

Lemma only_the_signature_changes_witness :
  payloadSignature (P := RefPlatform.platform)
    (setPayloadSignature (P := RefPlatform.platform)
       (envelope (sampleSignature "150f6")) (sampleSignature "1c"))
  = Some (Some (JString (sampleSignature "1c"))).
Proof.
  destruct (only_the_signature_changes (P := RefPlatform.platform)
              (envelope (sampleSignature "150f6")) (JString (sampleSignature "150f6"))
              (sampleSignature "1c"))
    as (l1 & l2 & p1 & p2 & _ & _ & _ & _ & Hread);
    [reflexivity | exact Hread].
Defined.

Lemma legacy_envelope_is_reencoded_witness :
  setPayloadSignature (P := RefPlatform.platform)
    (envelope (sampleSignature "1c")) (sampleSignature "1c")
  = envelope (sampleSignature "1c").
Proof.
  destruct (legacy_envelope_is_reencoded (P := RefPlatform.platform) (Num 43113) url
              (plainInit {["X-PAYMENT" := legacyPayment]}) legacyPayment
              (RefPlatform.JSON_stringify (envelope (sampleSignature "1c")))
              (envelope (sampleSignature "1c")) (sampleSignature "1c"))
    as (_ & Hsame & _);
    [vm_compute; reflexivity | vm_compute; discriminate | vm_compute; reflexivity
    | vm_compute; reflexivity | reflexivity | right; reflexivity | exact Hsame].
Defined.


End MoreRuns.

(** * The command parser *)

Section ChatFacts.
Import Chat.

Lemma app_nil_r_string (s : string) : s +:+ EmptyString = s.
Proof. induction s as [|c s IH]; [reflexivity |]. now rewrite app_cons, IH. Qed.

Lemma app_assoc_string (a b c : string) : (a +:+ b) +:+ c = a +:+ b +:+ c.
Proof. induction a as [|x a IH]; [reflexivity |]. now rewrite !app_cons, IH. Qed.

Lemma canonical_app (a b : string) : canonical (a +:+ b) = canonical a +:+ canonical b.
Proof. induction a as [|x a IH]; [reflexivity |]. rewrite app_cons. simpl. now rewrite IH. Qed.

Lemma canonical_length (a : string) : String.length (canonical a) = String.length a.
Proof. induction a as [|x a IH]; simpl; [reflexivity | now rewrite IH]. Qed.

Lemma isWordChar_canonicalize (c : ascii) : isWordChar (canonicalize c) = isWordChar c.
Proof.
  destruct c as [b0 b1 b2 b3 b4 b5 b6 b7].
  destruct b0, b1, b2, b3, b4, b5, b6, b7; reflexivity.
Qed.

Lemma allWord_canonical (s : string) : allWord (canonical s) = allWord s.
Proof. induction s as [|c s IH]; simpl; [reflexivity |]. now rewrite isWordChar_canonicalize, IH. Qed.

Lemma wordAt_canonical (s : string) : wordAt (canonical s) = wordAt s.
Proof. destruct s; simpl; [reflexivity | apply isWordChar_canonicalize]. Qed.

Lemma lastIsWord_canonical (s : string) : lastIsWord (canonical s) = lastIsWord s.
Proof.
  induction s as [|c s IH]; [reflexivity |].
  destruct s as [|c' s]; [apply isWordChar_canonicalize | exact IH].
Qed.

(** What a match of a literal is. *)
Lemma matchLiteral_spec (p s rest : string) :
  matchLiteral p s = Some rest ↔ ∃ mid, s = mid +:+ rest ∧ canonical mid = canonical p.
Proof.
  revert s. induction p as [|a p IH]; intros s; simpl.
  - split.
    + intros [= ->]. exists EmptyString. split; reflexivity.
    + intros (mid & -> & Hc). destruct mid; [reflexivity | discriminate].
  - destruct s as [|b s].
    + split; [discriminate |]. intros (mid & Hs & Hc).
      destruct mid; [discriminate Hc | discriminate Hs].
    + destruct (decide (canonicalize a = canonicalize b)) as [Hab | Hab].
      * rewrite bool_decide_eq_true_2 by assumption. rewrite IH. split.
        -- intros (mid & -> & Hc). exists (String b mid). split; [reflexivity |].
           simpl. now rewrite Hc, Hab.
        -- intros (mid & Hs & Hc). destruct mid as [|m mid]; [discriminate Hc |].
           rewrite app_cons in Hs. injection Hs as -> ->. injection Hc as _ Hc.
           exists mid. split; [reflexivity | exact Hc].
      * rewrite bool_decide_eq_false_2 by assumption. split; [discriminate |].
        intros (mid & Hs & Hc). destruct mid as [|m mid]; [discriminate Hc |].
        rewrite app_cons in Hs. injection Hs as -> ->. injection Hc as Hm _. congruence.
Qed.

Lemma take_app_length (mid rest : string) n :
  n = String.length mid → take n (mid +:+ rest) = mid.
Proof. intros ->. apply take_app_exact. Qed.

(** The alternatives are made of letters. *)
Lemma alternatives_letters (a : string) :
  a ∈ alternatives → allWord a = true ∧ a ≠ EmptyString.
Proof.
  unfold alternatives. intros H.
  repeat (apply elem_of_cons in H as [-> | H]; [split; [reflexivity | discriminate] |]).
  now apply elem_of_nil in H.
Qed.

Lemma allWord_wordAt (s : string) : allWord s = true → s ≠ EmptyString → wordAt s = true.
Proof. destruct s; simpl; [congruence |]. intros H _. now apply andb_prop in H as [H _]. Qed.

Lemma allWord_lastIsWord (s : string) : allWord s = true → s ≠ EmptyString → lastIsWord s = true.
Proof.
  induction s as [|c s IH]; [congruence |]. simpl. intros H _.
  apply andb_prop in H as [Hc Hs]. destruct s as [|c' s]; [exact Hc |].
  apply IH; [exact Hs | discriminate].
Qed.

(** A text that matches an alternative is made of letters too. *)
Lemma matched_letters (a mid : string) :
  a ∈ alternatives → canonical mid = canonical a →
  allWord mid = true ∧ mid ≠ EmptyString.
Proof.
  intros Ha Hc. destruct (alternatives_letters a Ha) as [Hw Hne]. split.
  - now rewrite <- allWord_canonical, Hc, allWord_canonical.
  - intros ->. destruct a; [congruence | discriminate].
Qed.

Lemma wordAt_app (a b : string) : a ≠ EmptyString → wordAt (a +:+ b) = wordAt a.
Proof. destruct a; [congruence | reflexivity]. Qed.

Lemma lastIsWord_app (a b : string) : b ≠ EmptyString → lastIsWord (a +:+ b) = lastIsWord b.
Proof.
  intros Hb. induction a as [|c a IH]; [reflexivity |].
  rewrite app_cons. simpl. destruct (a +:+ b) eqn:Hab; [| exact IH].
  destruct a; [rewrite app_empty in Hab; congruence | discriminate].
Qed.

Lemma lastIsWord_snoc (a : string) (c : ascii) :
  lastIsWord (a +:+ String c EmptyString) = isWordChar c.
Proof. now rewrite lastIsWord_app by discriminate. Qed.

(** Two whole words at the same place have the same length. *)
Lemma whole_words_same_length (mid post mid' post' : string) :
  mid +:+ post = mid' +:+ post' →
  allWord mid = true → allWord mid' = true →
  wordAt post = false → wordAt post' = false →
  mid = mid'.
Proof.
  revert mid'. induction mid as [|c mid IH]; intros mid' Heq Hw Hw' Hp Hp'.
  - destruct mid' as [|c' mid']; [reflexivity |].
    rewrite app_empty, app_cons in Heq. subst post. simpl in Hp, Hw'.
    apply andb_prop in Hw' as [Hc _]. congruence.
  - destruct mid' as [|c' mid'].
    + rewrite app_cons, app_empty in Heq. subst post'. simpl in Hp', Hw.
      apply andb_prop in Hw as [Hc _]. congruence.
    + rewrite !app_cons in Heq. injection Heq as -> Heq. f_equal.
      simpl in Hw, Hw'. apply andb_prop in Hw as [_ Hw]. apply andb_prop in Hw' as [_ Hw'].
      now apply IH.
Qed.

(** The group at a position. *)
Lemma matchGroup_sound (alts : list string) (s cap : string) :
  matchGroup alts s = Some cap →
  ∃ a post, a ∈ alts ∧ s = cap +:+ post ∧ canonical cap = canonical a ∧ wordAt post = false.
Proof.
  induction alts as [|a alts IH]; simpl; [discriminate |].
  destruct (matchLiteral a s) as [rest|] eqn:Hm.
  - destruct (wordAt rest) eqn:Hw; simpl.
    + intros H. destruct (IH H) as (a' & post & Ha' & ?). exists a', post.
      split; [apply elem_of_cons; now right | assumption].
    + intros [= <-]. apply matchLiteral_spec in Hm as (mid & -> & Hc).
      exists a, rest. rewrite (take_app_length mid rest)
        by (now rewrite <- (canonical_length mid), Hc, canonical_length).
      repeat split; [apply elem_of_cons; now left | assumption..].
  - intros H. destruct (IH H) as (a' & post & Ha' & ?). exists a', post.
    split; [apply elem_of_cons; now right | assumption].
Qed.

Lemma matchGroup_complete (alts : list string) (a mid post : string) :
  alts ⊆ alternatives → a ∈ alts →
  canonical mid = canonical a → wordAt post = false →
  matchGroup alts (mid +:+ post) = Some mid.
Proof.
  intros Hsub Ha Hc Hp.
  assert (Hmid : allWord mid = true).
  { apply (matched_letters a mid); [now apply Hsub | exact Hc]. }
  induction alts as [|a0 alts IH]; [now apply elem_of_nil in Ha |].
  simpl. destruct (matchLiteral a0 (mid +:+ post)) as [rest|] eqn:Hm.
  - destruct (wordAt rest) eqn:Hw; simpl.
    + apply elem_of_cons in Ha as [-> | Ha].
      * assert (Hm' : matchLiteral a0 (mid +:+ post) = Some post)
          by (apply matchLiteral_spec; eauto).
        congruence.
      * apply IH; [| exact Ha]. intros x Hx. apply Hsub. apply elem_of_cons; now right.
    + f_equal. apply matchLiteral_spec in Hm as (mid0 & Heq & Hc0).
      assert (mid = mid0) as <-.
      { apply (whole_words_same_length mid post mid0 rest Heq Hmid); [| exact Hp | exact Hw].
        apply (matched_letters a0 mid0); [| exact Hc0]. apply Hsub. apply elem_of_cons; now left. }
      apply take_app_length. now rewrite <- (canonical_length mid), Hc0, canonical_length.
  - apply elem_of_cons in Ha as [-> | Ha].
    + assert (Hm' : matchLiteral a0 (mid +:+ post) = Some post)
        by (apply matchLiteral_spec; eauto).
      congruence.
    + apply IH; [| exact Ha]. intros x Hx. apply Hsub. apply elem_of_cons; now right.
Qed.


Lemma matchHere_sound (pw : bool) (s cap : string) :
  matchHere pw s = Some cap →
  ∃ a post, a ∈ alternatives ∧ s = cap +:+ post ∧ canonical cap = canonical a
            ∧ wordAt post = false ∧ pw = false.
Proof.
  unfold matchHere. destruct (xorb pw (wordAt s)) eqn:Hx; [| discriminate].
  intros H. apply matchGroup_sound in H as (a & post & Ha & Hs & Hc & Hp).
  exists a, post. repeat split; try assumption.
  destruct (matched_letters a cap Ha Hc) as [Hw Hne].
  rewrite Hs, (wordAt_app cap post Hne), (allWord_wordAt cap Hw Hne) in Hx.
  now destruct pw.
Qed.

Lemma matchHere_complete (a mid post : string) :
  a ∈ alternatives → canonical mid = canonical a → wordAt post = false →
  matchHere false (mid +:+ post) = Some mid.
Proof.
  intros Ha Hc Hp. unfold matchHere.
  destruct (matched_letters a mid Ha Hc) as [Hw Hne].
  rewrite (wordAt_app mid post Hne), (allWord_wordAt mid Hw Hne). simpl.
  now apply (matchGroup_complete alternatives a).
Qed.

Lemma exec_unfold (pw : bool) (s : string) :
  exec pw s =
  match matchHere pw s with
  | Some captured => Some captured
  | None =>
      match s with
      | String c r => exec (isWordChar c) r
      | EmptyString => None
      end
  end.
Proof. destruct s; reflexivity. Qed.

Lemma app_snoc_string (pre : string) (c : ascii) (b : string) :
  (pre +:+ String c EmptyString) +:+ b = pre +:+ String c b.
Proof. now rewrite app_assoc_string. Qed.

(** What the search returns stands in the text as a whole word. *)
Lemma exec_sound (s pre cap : string) :
  exec (lastIsWord pre) s = Some cap →
  ∃ a b post, a ∈ alternatives ∧ s = b +:+ cap +:+ post ∧ canonical cap = canonical a
              ∧ lastIsWord (pre +:+ b) = false ∧ wordAt post = false.
Proof.
  revert pre. induction s as [|c r IH]; intros pre; rewrite exec_unfold.
  - destruct (matchHere (lastIsWord pre) EmptyString) as [cap'|] eqn:Hm; [| discriminate].
    intros [= ->]. apply matchHere_sound in Hm as (a & post & Ha & Hs & Hc & Hp & Hpw).
    exists a, EmptyString, post. rewrite app_nil_r_string. now repeat split.
  - destruct (matchHere (lastIsWord pre) (String c r)) as [cap'|] eqn:Hm.
    + intros [= ->]. apply matchHere_sound in Hm as (a & post & Ha & Hs & Hc & Hp & Hpw).
      exists a, EmptyString, post. rewrite app_nil_r_string. now repeat split.
    + rewrite <- (lastIsWord_snoc pre c). intros H.
      apply IH in H as (a & b & post & Ha & Hs & Hc & Hb & Hp).
      exists a, (String c b), post. rewrite app_snoc_string in Hb.
      rewrite app_cons, <- Hs. now repeat split.
Qed.

(** The leftmost whole word is what the search returns. *)
Lemma exec_complete (b s pre a mid post : string) :
  s = b +:+ mid +:+ post → a ∈ alternatives → canonical mid = canonical a →
  lastIsWord (pre +:+ b) = false → wordAt post = false →
  (∀ b' a' mid' post',
     s = b' +:+ mid' +:+ post' → (String.length b' < String.length b)%nat →
     a' ∈ alternatives → canonical mid' = canonical a' →
     lastIsWord (pre +:+ b') = false → wordAt post' = false → False) →
  exec (lastIsWord pre) s = Some mid.
Proof.
  revert s pre. induction b as [|c b IH]; intros s pre Hs Ha Hc Hb Hp Hmin;
    rewrite exec_unfold.
  - rewrite app_nil_r_string in Hb. rewrite app_empty in Hs.
    now rewrite Hb, Hs, (matchHere_complete a mid post Ha Hc Hp).
  - destruct (matchHere (lastIsWord pre) s) as [cap|] eqn:Hm.
    + exfalso. apply matchHere_sound in Hm as (a' & post' & Ha' & Hs' & Hc' & Hp' & Hpw).
      apply (Hmin EmptyString a' cap post'); try assumption.
      * simpl. lia.
      * now rewrite app_nil_r_string.
    + rewrite app_cons in Hs. subst s. rewrite <- (lastIsWord_snoc pre c).
      apply (IH _ _ eq_refl Ha Hc); [now rewrite app_snoc_string | exact Hp |].
      intros b' a' mid' post' Hs' Hlt Ha' Hc' Hb' Hp'.
      apply (Hmin (String c b') a' mid' post'); try assumption.
      * now rewrite app_cons, Hs'.
      * simpl. lia.
      * now rewrite <- app_snoc_string.
Qed.

(** The search fails only when no whole word is there. *)
Lemma exec_none (b s pre a mid post : string) :
  exec (lastIsWord pre) s = None →
  s = b +:+ mid +:+ post → a ∈ alternatives → canonical mid = canonical a →
  lastIsWord (pre +:+ b) = false → wordAt post = false → False.
Proof.
  revert s pre. induction b as [|c b IH]; intros s pre He Hs Ha Hc Hb Hp;
    rewrite exec_unfold in He.
  - rewrite app_nil_r_string in Hb. rewrite app_empty in Hs.
    rewrite Hb, Hs, (matchHere_complete a mid post Ha Hc Hp) in He. discriminate.
  - destruct (matchHere (lastIsWord pre) s) as [cap|] eqn:Hm; [discriminate |].
    rewrite app_cons in Hs. subst s. rewrite <- (lastIsWord_snoc pre c) in He.
    apply (IH _ _ He eq_refl Ha Hc); [now rewrite app_snoc_string | exact Hp].
Qed.

Lemma toUpperCase_canonical (s : string) : toUpperCase s = canonical s.
Proof. induction s as [|c s IH]; simpl; [reflexivity | now rewrite IH]. Qed.

(** [includes] and [startsWith] against the text. *)
Lemma startsWith_spec (s p : string) :
  startsWith s p = true ↔ ∃ post, s = p +:+ post.
Proof.
  revert s. induction p as [|a p IH]; intros s.
  - destruct s; simpl; split; eauto.
  - destruct s as [|b s]; simpl.
    + split; [discriminate |]. intros [post H]. discriminate H.
    + rewrite andb_true_iff, bool_decide_eq_true, IH. split.
      * intros [-> [post ->]]. now exists post.
      * intros [post H]. rewrite app_cons in H. injection H as -> ->. eauto.
Qed.

Lemma includes_spec (s sub : string) : includes s sub = true ↔ occursIn sub s.
Proof.
  unfold occursIn. induction s as [|c s IH].
  - cbn [includes]. rewrite orb_false_r, startsWith_spec. split.
    + intros [post H]. now exists EmptyString, post.
    + intros (pre & post & H). destruct pre; [| discriminate H]. eauto.
  - cbn [includes]. rewrite orb_true_iff, IH, startsWith_spec. split.
    + intros [[post H] | (pre & post & H)].
      * now exists EmptyString, post.
      * exists (String c pre), post. now rewrite app_cons, H.
    + intros (pre & post & H). destruct pre as [|c' pre].
      * left. now exists post.
      * right. rewrite app_cons in H. injection H as _ ->. eauto.
Qed.

Lemma includes_false (s sub : string) : includes s sub = false ↔ ¬ occursIn sub s.
Proof. rewrite <- includes_spec. now destruct (includes s sub). Qed.

Lemma findCommand_first (l1 l2 : list (string * Command)) (command : string)
    (config : Command) (lower : string) :
  occursIn command lower →
  (∀ c, c ∈ l1.*1 → ¬ occursIn c lower) →
  findCommand (l1 ++ (command, config) :: l2) lower = Some (command, config).
Proof.
  intros Hin. induction l1 as [|[c cfg] l1 IH]; intros Hnot; simpl.
  - now rewrite (proj2 (includes_spec lower command) Hin).
  - rewrite (proj2 (includes_false lower c)).
    + apply IH. intros c' Hc'. apply Hnot. simpl. apply elem_of_cons. now right.
    + apply Hnot. simpl. apply elem_of_cons. now left.
Qed.

Lemma findCommand_none (commands : list (string * Command)) (lower : string) :
  findCommand commands lower = None ↔ ∀ c, c ∈ commands.*1 → ¬ occursIn c lower.
Proof.
  induction commands as [|[c cfg] l IH]; simpl.
  - split; [| reflexivity]. intros _ c Hc. now apply elem_of_nil in Hc.
  - destruct (includes lower c) eqn:Hi.
    + split; [discriminate |]. intros H. exfalso.
      apply (H c); [apply elem_of_cons; now left | now apply includes_spec].
    + rewrite IH. split.
      * intros H c' Hc'. apply elem_of_cons in Hc' as [-> | Hc'];
          [now apply includes_false | now apply H].
      * intros H c' Hc'. apply H. apply elem_of_cons. now right.
Qed.

Lemma findCommand_some (commands : list (string * Command)) (lower : string)
    (command : string) (config : Command) :
  findCommand commands lower = Some (command, config) →
  (command, config) ∈ commands ∧ occursIn command lower.
Proof.
  induction commands as [|[c cfg] l IH]; simpl; [discriminate |].
  destruct (includes lower c) eqn:Hi.
  - intros [= -> ->]. split; [apply elem_of_cons; now left | now apply includes_spec].
  - intros H. destruct (IH H) as [H1 H2]. split; [apply elem_of_cons; now right | exact H2].
Qed.

(** A whole word at an offset is a match of the pattern there. *)
Lemma wholeWordAt_matchHere (s name : string) (i : nat) :
  name ∈ alternatives → wholeWordAt s i name →
  matchHere (lastIsWord (take i s)) (drop i s) ≠ None.
Proof.
  intros Ha (pre & mid & post & -> & <- & Hc & Hpre & Hp).
  rewrite take_app_exact, drop_app_exact, Hpre.
  now rewrite (matchHere_complete name mid post Ha Hc Hp).
Qed.

End ChatFacts.

Section ChatTheorems.
Import Chat.

(** X14: [parseUserIntent] answers with the first command of
    [SMART_COMMANDS], in the order of the table, whose name stands somewhere
    in the lower-cased and trimmed message: the tokens are those of that
    command, whatever token names or later commands the message holds
    besides. *)
Theorem first_included_command_wins (message command : string) (config : Command)
    (l1 l2 : list (string * Command)) :
  let lower := trim (toLowerCase message) in
  SMART_COMMANDS = l1 ++ (command, config) :: l2 →
  occursIn command lower →
  (∀ c, c ∈ l1.*1 → ¬ occursIn c lower) →
  parseUserIntent message = mkIntent (tokens config) true (Some command).
Proof.
  intros lower Ht Hin Hnot. unfold parseUserIntent. fold lower.
  now rewrite Ht, (findCommand_first l1 l2 command config lower Hin Hnot).
Qed.

(** X15: when the lower-cased and trimmed message holds no command name,
    [parseUserIntent] returns one token: the upper-case form of the name
    of the pattern that stands leftmost in the message as a whole word (no
    letter, digit or underscore touching it on either side). *)
Theorem leftmost_token_is_returned (message name : string) (i : nat) :
  let lower := trim (toLowerCase message) in
  (∀ c, c ∈ SMART_COMMANDS.*1 → ¬ occursIn c lower) →
  name ∈ alternatives →
  wholeWordAt lower i name →
  (∀ j other, (j < i)%nat → other ∈ alternatives → ¬ wholeWordAt lower j other) →
  parseUserIntent message = mkIntent [toUpperCase name] false None.
Proof.
  intros lower Hnone Ha (pre & mid & post & Hs & Hi & Hc & Hpre & Hp) Hmin.
  unfold parseUserIntent. fold lower.
  rewrite (proj2 (findCommand_none SMART_COMMANDS lower) Hnone).
  change false with (lastIsWord EmptyString).
  rewrite (exec_complete pre lower EmptyString name mid post Hs Ha Hc Hpre Hp).
  - now rewrite !toUpperCase_canonical, Hc.
  - intros b' a' mid' post' Hs' Hlt Ha' Hc' Hb' Hp'.
    apply (Hmin (String.length b') a'); [lia | exact Ha' |].
    exists b', mid', post'. now repeat split.
Qed.

(** X16: [parseUserIntent] returns no token exactly when the lower-cased
    and trimmed message holds no command name and none of the ten names
    stands in it as a whole word; a name inside a longer word, or next to a
    digit or an underscore, does not count. *)
Theorem nothing_recognised_iff (message : string) :
  let lower := trim (toLowerCase message) in
  parseUserIntent message = mkIntent [] false None ↔
  (∀ c, c ∈ SMART_COMMANDS.*1 → ¬ occursIn c lower)
  ∧ (∀ i name, name ∈ alternatives → ¬ wholeWordAt lower i name).
Proof.
  intros lower. unfold parseUserIntent. fold lower. split.
  - destruct (findCommand SMART_COMMANDS lower) as [[c cfg]|] eqn:Hf; [discriminate |].
    destruct (exec false lower) as [cap|] eqn:He; [discriminate |]. intros _. split.
    + now apply findCommand_none.
    + intros i name Ha (pre & mid & post & Hs & Hi & Hc & Hpre & Hp).
      change false with (lastIsWord EmptyString) in He.
      exact (exec_none pre lower EmptyString name mid post He Hs Ha Hc Hpre Hp).
  - intros [Hnone Hno]. rewrite (proj2 (findCommand_none SMART_COMMANDS lower) Hnone).
    destruct (exec false lower) as [cap|] eqn:He; [| reflexivity]. exfalso.
    change false with (lastIsWord EmptyString) in He.
    apply exec_sound in He as (a & b & post & Ha & Hs & Hc & Hb & Hp).
    apply (Hno (String.length b) a Ha). exists b, cap, post. now repeat split.
Qed.

(** X17: whatever the message, every token that [parseUserIntent] returns
    is one of the ten names of the pattern in upper case; there are at most
    five, at most one when no command was recognised, and at least one
    when a command was. *)
Theorem tokens_are_known (message : string) :
  let intent := parseUserIntent message in
  Forall (λ t, t ∈ knownTokens) (intentTokens intent)
  ∧ (List.length (intentTokens intent) ≤ 5)%nat
  ∧ (isSmartCommand intent = false → (List.length (intentTokens intent) ≤ 1)%nat)
  ∧ (isSmartCommand intent = true → intentTokens intent ≠ []).
Proof.
  intros intent. subst intent. unfold parseUserIntent.
  set (lower := trim (toLowerCase message)).
  destruct (findCommand SMART_COMMANDS lower) as [[c cfg]|] eqn:Hf.
  - apply findCommand_some in Hf as [Hf _]. unfold SMART_COMMANDS in Hf.
    repeat (apply elem_of_cons in Hf as [[= -> ->] | Hf];
      [simpl; repeat split; try lia; try discriminate;
       repeat constructor; vm_compute; set_solver |]).
    now apply elem_of_nil in Hf.
  - destruct (exec false lower) as [cap|] eqn:He; simpl.
    + change false with (lastIsWord EmptyString) in He.
      apply exec_sound in He as (a & b & post & Ha & Hs & Hc & Hb & Hp).
      repeat split; try lia; try discriminate.
      constructor; [| constructor]. rewrite toUpperCase_canonical, Hc, <- toUpperCase_canonical.
      unfold knownTokens. now apply list_elem_of_fmap_2.
    + repeat split; try lia; try discriminate. constructor.
Qed.

End ChatTheorems.

Section ChatRuns.
Import Chat.

Lemma no_command_in (lower : string) :
  forallb (λ c, negb (includes lower c)) SMART_COMMANDS.*1 = true →
  ∀ c, c ∈ SMART_COMMANDS.*1 → ¬ occursIn c lower.
Proof.
  intros H c Hc. apply includes_false.
  rewrite forallb_forall in H. apply negb_true_iff, H. now apply list_elem_of_In.
Qed.

Lemma first_included_command_wins_witness :
  parseUserIntent "Top coins please, then a Market Summary; skip ETH"
  = mkIntent ["BTC"; "ETH"; "AVAX"] true (Some "market summary")
  ∧ parseUserIntent "  Which STABLECOINS hold, usdc or usdt? "
    = mkIntent ["USDC"; "USDT"] true (Some "stablecoins").
Proof.
  split.
  - apply (first_included_command_wins _ "market summary"
             (mkCommand ["BTC"; "ETH"; "AVAX"] "Get prices for top 3 cryptocurrencies")
             [] (list.drop 1 SMART_COMMANDS)).
    + reflexivity.
    + apply includes_spec. vm_compute. reflexivity.
    + intros c Hc. now apply elem_of_nil in Hc.
  - apply (first_included_command_wins _ "stablecoins"
             (mkCommand ["USDC"; "USDT"] "Check stablecoin prices")
             (list.take 3 SMART_COMMANDS) []).
    + reflexivity.
    + apply includes_spec. vm_compute. reflexivity.
    + intros c Hc. apply includes_false.
      repeat (apply elem_of_cons in Hc as [-> | Hc]; [vm_compute; reflexivity |]).
      now apply elem_of_nil in Hc.
Defined.

Lemma leftmost_token_is_returned_witness :
  parseUserIntent "Price of AVAX or btc, not ethereum?" = mkIntent ["AVAX"] false None.
Proof.
  apply (leftmost_token_is_returned _ "avax" 9).
  - apply no_command_in. vm_compute. reflexivity.
  - vm_compute. set_solver.
  - exists "price of ", "avax", " or btc, not ethereum?". vm_compute. tauto.
  - intros j other Hj Ho Hw. apply (wholeWordAt_matchHere _ _ _ Ho) in Hw.
    do 9 (destruct j as [|j]; [vm_compute in Hw; congruence |]). lia.
Defined.

Lemma no_whole_word_in (lower : string) :
  forallb (λ i, bool_decide (matchHere (lastIsWord (take i lower)) (drop i lower) = None))
          (seq 0 (S (String.length lower))) = true →
  ∀ i name, name ∈ alternatives → ¬ wholeWordAt lower i name.
Proof.
  intros H i name Ha Hw. apply (wholeWordAt_matchHere lower name i Ha Hw).
  rewrite forallb_forall in H. eapply bool_decide_eq_true_1, H. apply in_seq.
  destruct Hw as (pre & mid & post & -> & <- & _). rewrite length_app. lia.
Qed.

Lemma nothing_recognised_iff_witness :
  parseUserIntent "Which METHOD do bitcoins use? ETH2, _btc and solana "
  = mkIntent [] false None.
Proof.
  apply (proj2 (nothing_recognised_iff
                  "Which METHOD do bitcoins use? ETH2, _btc and solana ")).
  split.
  - apply no_command_in. vm_compute. reflexivity.
  - apply no_whole_word_in. vm_compute. reflexivity.
Defined.

End ChatRuns.

(** * The lists of the dashboard, proved *)

Section DashboardFacts.
Import Dashboard.
Context {JSNumber JSDate : Type}.
Implicit Types (calls prev older : list (@ServiceCall JSNumber JSDate)).
Implicit Types (c pendingCall finished : @ServiceCall JSNumber JSDate).

Lemma length_sliceLast {A : Type} (n : nat) (l : list A) :
  length (sliceLast n l) = Nat.min n (length l).
Proof. unfold sliceLast. rewrite length_drop. lia. Qed.

Lemma reverse_sliceLast_lookup {A : Type} (n : nat) (l : list A) (k : nat) :
  (k < Nat.min n (length l))%nat →
  reverse (sliceLast n l) !! k = l !! (length l - 1 - k)%nat.
Proof.
  intros Hk. unfold sliceLast.
  rewrite reverse_lookup by (rewrite length_drop; lia).
  rewrite lookup_drop, length_drop. f_equal. lia.
Qed.

Lemma elem_of_sliceLast {A : Type} (n : nat) (l : list A) (x : A) :
  x ∈ sliceLast n l → x ∈ l.
Proof.
  unfold sliceLast. intros H. rewrite <- (list.take_drop (length l - n) l).
  apply elem_of_app. now right.
Qed.

Lemma replaceCall_fresh (callId : string) finished prev :
  (∀ c, c ∈ prev → id c ≠ callId) → replaceCall callId finished prev = prev.
Proof.
  unfold replaceCall. induction prev as [|c prev IH]; intros H; [reflexivity |].
  rewrite fmap_cons, bool_decide_eq_false_2.
  - f_equal. apply IH. intros c' Hc'. apply H. apply elem_of_cons. now right.
  - apply H. apply elem_of_cons. now left.
Qed.

(** X18: the rows of "Live Payments" are the last eight calls, or all of
    them when there are fewer, the newest first: row [k] is the call [k]
    places before the end of the list. *)
Theorem live_payments_newest_first calls :
  length (livePayments calls) = Nat.min 8 (length calls)
  ∧ ∀ k, (k < length (livePayments calls))%nat →
      livePayments calls !! k = calls !! (length calls - 1 - k)%nat.
Proof.
  unfold livePayments. rewrite length_reverse, length_sliceLast. split; [reflexivity |].
  intros k Hk. now apply reverse_sliceLast_lookup.
Qed.

(** X19: the rows of "Recent Results" are the first five of the successful
    calls read from the newest to the oldest: never more than five, each a
    call of the list with status success, and a call that has just
    succeeded comes first. *)
Theorem recent_results_are_newest_successes calls :
  recentResults calls = list.take 5 (reverse (successfulCalls calls))
  ∧ (length (recentResults calls) ≤ 5)%nat
  ∧ (∀ c, c ∈ recentResults calls → c ∈ calls ∧ status c = success)
  ∧ (∀ older c, status c = success →
       recentResults (older ++ [c]) !! 0%nat = Some c).
Proof.
  unfold recentResults, successfulCalls. repeat split.
  - unfold sliceLast. now rewrite take_reverse.
  - rewrite length_reverse, length_sliceLast. lia.
  - apply elem_of_reverse, elem_of_sliceLast, list_elem_of_filter in H. tauto.
  - apply elem_of_reverse, elem_of_sliceLast, list_elem_of_filter in H. tauto.
  - intros older c Hc. rewrite filter_app, filter_cons_True, filter_nil by exact Hc.
    rewrite reverse_sliceLast_lookup by (rewrite List.length_app; cbn [length]; lia).
    rewrite List.length_app. cbn [length].
    rewrite lookup_app_r by lia.
    replace (length (filter (λ c0, status c0 = success) older) + 1 - 1 - 0
             - length (filter (λ c0, status c0 = success) older))%nat with 0%nat by lia.
    reflexivity.
Qed.

(** X20: when no earlier call has the id of the new one, the two state
    updates of [callPriceService] leave the earlier calls as they were and
    add the finished call, which is the one returned; whether the request
    is paid, refused or throws, that call is no longer pending and keeps
    the id and the token it was started with. *)
Theorem call_never_stays_pending prev pendingCall (reply : Reply) :
  (∀ c, c ∈ prev → id c ≠ id pendingCall) →
  let (after, returned) := callPriceService pendingCall reply prev in
  after = prev ++ [returned]
  ∧ status returned ≠ pending
  ∧ pendingCalls after = pendingCalls prev
  ∧ (id returned, token returned) = (id pendingCall, token pendingCall).
Proof.
  intros H. unfold callPriceService.
  assert (Hid : id (finishedCall pendingCall reply) = id pendingCall)
    by now destruct reply.
  assert (Hst : status (finishedCall pendingCall reply) ≠ pending)
    by now destruct reply.
  assert (Hl : replaceCall (id pendingCall) (finishedCall pendingCall reply)
                 (addCall pendingCall prev) = prev ++ [finishedCall pendingCall reply]).
  { unfold addCall, replaceCall. rewrite fmap_app.
    fold (replaceCall (id pendingCall) (finishedCall pendingCall reply) prev).
    rewrite (replaceCall_fresh _ _ _ H). simpl. now rewrite bool_decide_eq_true_2. }
  rewrite Hl. repeat split; try assumption.
  - unfold pendingCalls. rewrite filter_app, filter_cons_False, filter_nil by exact Hst.
    apply app_nil_r.
  - now destruct reply.
Qed.

Lemma length_drop_string (n : nat) (s : string) :
  String.length (drop n s) = (String.length s - n)%nat.
Proof.
  pose proof (length_take_drop n s) as H. rewrite length_take_string in H. lia.
Qed.

(** X21: the short form of an address of [n] code units has
    [min 6 n + 3 + min 4 n] of them, 13 as soon as the address has six; an
    address of at most four code units is shown twice, in full on either
    side of the dots. *)
Theorem short_address_length (address : string) :
  String.length (shortAddress address)
  = (Nat.min 6 (String.length address) + 3 + Nat.min 4 (String.length address))%nat
  ∧ ((String.length address ≤ 4)%nat →
      shortAddress address = address +:+ "..." +:+ address).
Proof.
  unfold shortAddress, sliceFromEnd, slice. cbn [drop Nat.sub]. split.
  - rewrite !length_app, length_take_string, length_drop_string.
    change (String.length "...") with 3%nat. lia.
  - intros H. rewrite take_short by lia.
    now replace (String.length address - 4)%nat with 0%nat by lia.
Qed.

End DashboardFacts.

Section DashboardRuns.
Import Dashboard.

Lemma call_never_stays_pending_witness :
  let (after, returned) := callPriceService laterCall (paid None) [earlierCall] in
  after = [earlierCall] ++ [returned]
  ∧ status returned ≠ pending
  ∧ pendingCalls after = pendingCalls [earlierCall]
  ∧ (id returned, token returned) = (id laterCall, token laterCall).
Proof.
  apply (call_never_stays_pending [earlierCall] laterCall (paid None)).
  intros c Hc. apply list_elem_of_singleton in Hc as ->. vm_compute. discriminate.
Defined.

End DashboardRuns.
